(** * feishu_intl_tool: the CSV-to-ARB pipeline of [language_generator.py]
    and the trailing-row trim of [feishu_sheets_export.py].

    Python [str] values are sequences of Unicode code points, Python
    dictionaries are insertion-ordered association lists with unique keys,
    and the files the generator touches live in an explicit [world]. *)

From Stdlib Require Import NArith List Ascii String Lia.
From stdpp Require Import base tactics option list.

Local Open Scope N_scope.
Local Open Scope nat_scope.

(** ** Python strings *)

Abbreviation char := N (only parsing).
Abbreviation str := (list N) (only parsing).

(** An ASCII literal, one code point per character.  Rocq strings have no
    escapes: [lit "\n"] is the two characters backslash and n. *)
Definition lit (s : string) : str := map N_of_ascii (list_ascii_of_string s).

Definition NL : char := 10%N.         (* the newline character *)
Definition DQUOTE : char := 34%N.     (* the double-quote character *)
Definition BACKSLASH : char := 92%N.
Definition BOM : char := 65279%N.     (* U+FEFF *)

(** [str.isspace] on one code point: the Unicode white-space table used by
    [str.strip()] without an argument. *)
Definition isspace (c : char) : bool :=
  ((9 <=? c) && (c <=? 13) || (28 <=? c) && (c <=? 32)
   || (c =? 133) || (c =? 160) || (c =? 5760)
   || (8192 <=? c) && (c <=? 8202)
   || (c =? 8232) || (c =? 8233) || (c =? 8239) || (c =? 8287)
   || (c =? 12288))%N.

(** Drop the longest prefix whose elements satisfy [p]. *)
Fixpoint drop_while {A} (p : A -> bool) (l : list A) : list A :=
  match l with
  | x :: l' => if p x then drop_while p l' else l
  | [] => []
  end.

Definition lstrip (s : str) : str := drop_while isspace s.

Definition rstrip (s : str) : str := rev (lstrip (rev s)).

(** [s.strip()] *)
Definition strip (s : str) : str := rstrip (lstrip s).

(** [str.lower] on one code point.  Upper-case ASCII letters and the Kelvin
    sign U+212A are the code points whose lower-case form is an ASCII
    letter; every other code point lower-cases to something that holds a
    non-ASCII code point, so comparing [s.lower()] with an ASCII word (the
    only use the generator makes of it) is decided by this table. *)
Definition lower_char (c : char) : char :=
  if ((65 <=? c) && (c <=? 90))%N then (c + 32)%N
  else if (c =? 8490)%N then 107%N
  else c.

(** [s.lower()] *)
Definition lower (s : str) : str := map lower_char s.

(** Truth value of a string: [if s], [if not s]. *)
Definition truthy (s : str) : bool :=
  match s with [] => false | _ :: _ => true end.

(** [s.replace(old, new)] for a two-character [old = a b]: leftmost
    occurrences first, occurrences do not overlap. *)
Fixpoint replace2 (a b : char) (new : str) (s : str) : str :=
  match s with
  | x :: ((y :: rest) as tail) =>
      if ((x =? a) && (y =? b))%N then new ++ replace2 a b new rest
      else x :: replace2 a b new tail
  | _ => s
  end.

(** [x in xs] for a list of strings. *)
Definition contains (x : str) (xs : list str) : bool :=
  bool_decide (x ∈ xs).

(** [xs.index(x)]: the first position of [x]; the caller has checked
    [x in xs], where Python would raise otherwise. *)
Fixpoint index (x : str) (xs : list str) : nat :=
  match xs with
  | [] => 0
  | y :: ys => if decide (y = x) then 0 else S (index x ys)
  end.

(** ** Python dictionaries

    Keys are strings.  A dictionary remembers the order in which its keys
    were first inserted; assigning to an existing key keeps its place. *)
Section Dict.
Context {V : Type}.

Definition dict := list (str * V).

(** [d.get(k)], [k in d], [d[k]] *)
Fixpoint dict_get (k : str) (d : dict) : option V :=
  match d with
  | [] => None
  | (k', v) :: d' => if decide (k' = k) then Some v else dict_get k d'
  end.

(** [d[k] = v] *)
Fixpoint dict_set (k : str) (v : V) (d : dict) : dict :=
  match d with
  | [] => [(k, v)]
  | (k', v') :: d' =>
      if decide (k' = k) then (k, v) :: d' else (k', v') :: dict_set k v d'
  end.

(** [f(d[k])] for an [f] that mutates the object stored under [k]. *)
Fixpoint dict_update (k : str) (f : V -> V) (d : dict) : dict :=
  match d with
  | [] => []
  | (k', v') :: d' =>
      if decide (k' = k) then (k', f v') :: d'
      else (k', v') :: dict_update k f d'
  end.

Definition dict_keys (d : dict) : list str := map fst d.

Definition dict_mem (k : str) (d : dict) : bool :=
  match dict_get k d with Some _ => true | None => false end.

(** The keys of a dictionary are pairwise different. *)
Definition dict_wf (d : dict) : Prop := NoDup (dict_keys d).
End Dict.
Arguments dict : clear implicits.

(** ** Configuration of [language_generator.py] *)

Record LanguageConfig := {
  code : str;
  name : str;
  file_name : str
}.

Definition ARB_DIR : str := lit "lib/l10n".

Definition LANGUAGES : dict LanguageConfig :=
  [ (lit "zh", {| code := lit "zh"; name := [20013; 25991]%N;
                  file_name := lit "intl_zh.arb" |});
    (lit "en", {| code := lit "en"; name := [33521; 35821]%N;
                  file_name := lit "intl_en.arb" |});
    (lit "ja", {| code := lit "ja"; name := [26085; 35821]%N;
                  file_name := lit "intl_ja.arb" |});
    (lit "ko", {| code := lit "ko"; name := [38889; 35821]%N;
                  file_name := lit "intl_ko.arb" |});
    (lit "tr", {| code := lit "tr"; name := [22303; 32819; 20854; 35821]%N;
                  file_name := lit "intl_tr.arb" |}) ].

(** ** [FeishuI18nGenerator.parse_csv_data], from the row list on *)

(** The three [ValueError]s of [parse_csv_data], in the order of their
    [raise] statements: too few rows, no ['key'] header, no language
    column. *)
Inductive parse_error :=
  | MalformedTableError
  | MissingKeyColumnError
  | NoMatchingLanguageColumnsError.

(** [[h.strip() for h in rows[0] if h.strip()]] *)
Definition parse_headers (row0 : list str) : list str :=
  map strip (List.filter (fun h => truthy (strip h)) row0).

(** The loop over [enumerate(headers)] that fills [language_columns];
    [i] is the index of the first header of [headers]. *)
Fixpoint language_columns_from (i : nat) (headers : list str)
    (language_columns : dict nat) : dict nat :=
  match headers with
  | [] => language_columns
  | header :: rest =>
      if decide (lower header = lit "key") then
        language_columns_from (S i) rest language_columns
      else if dict_mem (lower header) LANGUAGES then
        language_columns_from (S i) rest
          (dict_set (lower header) i language_columns)
      else language_columns_from (S i) rest language_columns
  end.

Definition language_columns (headers : list str) : dict nat :=
  language_columns_from 0 headers [].

(** [value.strip()] followed by the two [replace] calls. *)
Definition clean_value (cell : str) : str :=
  replace2 BACKSLASH DQUOTE [DQUOTE]
    (replace2 BACKSLASH 110%N [NL] (strip cell)).

(** One turn of the loop over [language_columns.items()]:
    [if col_index < len(row): result[key][lang_code] = value]. *)
Definition store_cell (key : str) (row : list str)
    (result : dict (dict str)) (binding : str * nat) : dict (dict str) :=
  let '(lang_code, col_index) := binding in
  match row !! col_index with
  | Some cell => dict_update key (dict_set lang_code (clean_value cell)) result
  | None => result
  end.

(** One turn of the loop over [rows[1:]].  [row !! key_index] is [None]
    exactly when [not row or len(row) <= key_index]. *)
Definition process_row (key_index : nat) (language_columns : dict nat)
    (result : dict (dict str)) (row : list str) : dict (dict str) :=
  match row !! key_index with
  | None => result
  | Some cell =>
      let key := strip cell in
      if truthy key then
        fold_left (store_cell key row) language_columns (dict_set key [] result)
      else result
  end.

(** [parse_csv_data] after [rows = list(csv_reader)]. *)
Definition parse_rows (rows : list (list str))
    : parse_error + dict (dict str) :=
  if decide (length rows < 2) then inl MalformedTableError
  else
    let headers := parse_headers (default [] (rows !! 0)) in
    if negb (contains (lit "key") headers) then inl MissingKeyColumnError
    else
      let key_index := index (lit "key") headers in
      let language_columns := language_columns headers in
      match language_columns with
      | [] => inl NoMatchingLanguageColumnsError
      | _ :: _ =>
          inr (fold_left (process_row key_index language_columns)
                 (drop 1 rows) [])
      end.


(** ** [FeishuI18nGenerator.generate_json_files] *)

(** The inner loop: [lang_data], the flat mapping written for [lang_code]. *)
Definition collect (lang_code : str) (lang_data : dict str)
    (item : str * dict str) : dict str :=
  let '(key, translations) := item in
  match dict_get lang_code translations with
  | Some value => if truthy value then dict_set key value lang_data
                  else lang_data
  | None => lang_data
  end.

Definition lang_data (lang_code : str) (i18n_data : dict (dict str))
    : dict str :=
  fold_left (collect lang_code) i18n_data [].

(** [json.dump(lang_data, f, ensure_ascii=False, indent=2)]: the text that
    reaches the file.  Only the backslash, the double quote and the control
    characters below U+0020 are escaped. *)
Definition hex_digit (n : N) : char :=
  if (n <? 10)%N then (48 + n)%N else (87 + n)%N.

Definition json_escape (c : char) : str :=
  if (c =? 92)%N then [92; 92]%N
  else if (c =? 34)%N then [92; 34]%N
  else if (c =? 8)%N then [92; 98]%N
  else if (c =? 12)%N then [92; 102]%N
  else if (c =? 10)%N then [92; 110]%N
  else if (c =? 13)%N then [92; 114]%N
  else if (c =? 9)%N then [92; 116]%N
  else if (c <? 32)%N then
    [92; 117; 48; 48; hex_digit (c / 16); hex_digit (c mod 16)]%N
  else [c].

Definition json_string (s : str) : str :=
  [DQUOTE] ++ concat (map json_escape s) ++ [DQUOTE].

Definition json_item (item : str * str) : str :=
  json_string (fst item) ++ lit ": " ++ json_string (snd item).

Fixpoint json_items (items : dict str) : str :=
  match items with
  | [] => []
  | [item] => json_item item
  | item :: rest => json_item item ++ lit "," ++ [NL] ++ lit "  "
                    ++ json_items rest
  end.

Definition json_dump (d : dict str) : str :=
  match d with
  | [] => lit "{}"
  | _ :: _ => lit "{" ++ [NL] ++ lit "  " ++ json_items d ++ [NL] ++ lit "}"
  end.

(** The part of the outside world the two scripts act on: the text files
    by path, the paths that cannot be opened for writing, the directories
    created, and the paths handed to [open(path, 'w')] so far, oldest
    first. *)
Record world := World {
  files : dict str;
  unwritable : list str;
  dirs : list str;
  opened : list str
}.

Inductive exn :=
  | ValueError (e : parse_error)
  | CsvError
  | OSError (path : str).

(** [os.path.join] of a directory and a relative file name. *)
Definition path_join (dir file : str) : str := dir ++ lit "/" ++ file.

(** [os.makedirs(path, exist_ok=True)] *)
Definition makedirs (path : str) (w : world) : world :=
  if contains path (dirs w) then w
  else World (files w) (unwritable w) (dirs w ++ [path]) (opened w).

(** [with open(path, 'w', encoding='utf-8') as f: f.write(text)].  The
    attempt is recorded; an unwritable path raises and leaves the files as
    they are. *)
Definition write_text (path text : str) (w : world) : world * option exn :=
  if contains path (unwritable w) then
    (World (files w) (unwritable w) (dirs w) (opened w ++ [path]),
     Some (OSError path))
  else
    (World (dict_set path text (files w)) (unwritable w) (dirs w)
       (opened w ++ [path]),
     None).

(** The loop over [LANGUAGES.items()]; an exception leaves the loop. *)
Fixpoint generate_loop (languages : dict LanguageConfig)
    (i18n_data : dict (dict str)) (w : world) : world * option exn :=
  match languages with
  | [] => (w, None)
  | (lang_code, lang_config) :: rest =>
      let file_path := path_join ARB_DIR (file_name lang_config) in
      match write_text file_path (json_dump (lang_data lang_code i18n_data)) w
      with
      | (w', Some e) => (w', Some e)
      | (w', None) => generate_loop rest i18n_data w'
      end
  end.

Definition generate_json_files (i18n_data : dict (dict str)) (w : world)
    : world * option exn :=
  generate_loop LANGUAGES i18n_data w.

(** ** [write_csv] of [feishu_sheets_export.py] *)

(** [all((c or "").strip() == "" for c in r)] *)
Definition is_empty_row (r : list str) : bool :=
  forallb (fun c => negb (truthy (strip c))) r.

(** The list [trimmed] when the [while] loop that pops trailing empty rows
    has ended: the rows handed to the CSV writer. *)
Definition trimmed_rows (rows : list (list str)) : list (list str) :=
  rev (drop_while is_empty_row (rev rows)).

(** ** From CSV text to exit status

    [csv.reader] belongs to the Python library: [csv_reader text] is
    [list(csv.reader(StringIO(text)))], or [None] where the reader raises
    [csv.Error]. *)
Section Csv.
Variable csv_reader : str -> option (list (list str)).

(** [if csv_content.startswith('\ufeff'): csv_content = csv_content[1:]] *)
Definition strip_bom (csv_content : str) : str :=
  match csv_content with
  | c :: rest => if (c =? BOM)%N then rest else csv_content
  | [] => []
  end.

Definition parse_csv_data (csv_content : str) : exn + dict (dict str) :=
  match csv_reader (strip_bom csv_content) with
  | None => inl CsvError
  | Some rows =>
      match parse_rows rows with
      | inl e => inl (ValueError e)
      | inr result => inr result
      end
  end.

(** [main], with [csv_path] for [args.csv]; the result is the world left
    behind and the exit status.  Console output, [validate_data] included,
    is not part of the world. *)
Definition main (csv_path : str) (w : world) : world * nat :=
  let w := makedirs ARB_DIR w in
  match dict_get csv_path (files w) with
  | None => (w, 1)
  | Some csv_content =>
      match parse_csv_data csv_content with
      | inl _ => (w, 1)
      | inr i18n_data =>
          match generate_json_files i18n_data w with
          | (w', Some _) => (w', 1)
          | (w', None) => (w', 0)
          end
      end
  end.
End Csv.

(** [csv.reader] on text that holds no quote and no carriage return: one
    row per line, cells separated by commas, an empty line is an empty
    row.  Used to run the pipeline on concrete text. *)
Fixpoint split_on (sep : char) (s : str) : list str :=
  match s with
  | [] => [[]]
  | c :: s' =>
      if (c =? sep)%N then [] :: split_on sep s'
      else match split_on sep s' with
           | piece :: pieces => (c :: piece) :: pieces
           | [] => [[c]]
           end
  end.

Definition plain_lines (text : str) : list str :=
  let pieces := split_on NL text in
  match rev pieces with
  | [] :: before => rev before
  | _ => pieces
  end.

Definition plain_csv_reader (text : str) : option (list (list str)) :=
  Some (map (fun line => match line with
                         | [] => []
                         | _ :: _ => split_on 44%N line
                         end) (plain_lines text)).

(** ** Notions the statements below are written in *)

(** The key column and the language bindings a header row resolves to. *)
Definition key_index_of (header_row : list str) : nat :=
  index (lit "key") (parse_headers header_row).

Definition columns_of (header_row : list str) : dict nat :=
  language_columns (parse_headers header_row).

(** The key a data row contributes, if any: the row reaches the key column
    and its key cell is not blank. *)
Definition row_key (key_index : nat) (row : list str) : option str :=
  match row !! key_index with
  | Some cell => if truthy (strip cell) then Some (strip cell) else None
  | None => None
  end.

(** The translation set one row yields by itself: a value for every bound
    language whose column the row reaches. *)
Definition entry_cell (row : list str) (entry : dict str)
    (binding : str * nat) : dict str :=
  let '(lang_code, col_index) := binding in
  match row !! col_index with
  | Some cell => dict_set lang_code (clean_value cell) entry
  | None => entry
  end.

Definition row_entry (language_columns : dict nat) (row : list str)
    : dict str :=
  fold_left (entry_cell row) language_columns [].

(** The two escape sequences replaced in one pass from left to right:
    backslash n by a newline, backslash double-quote by a double quote. *)
Fixpoint unescape (s : str) : str :=
  match s with
  | x :: ((y :: rest) as tail) =>
      if ((x =? BACKSLASH) && (y =? 110))%N then NL :: unescape rest
      else if ((x =? BACKSLASH) && (y =? DQUOTE))%N then DQUOTE :: unescape rest
      else x :: unescape tail
  | _ => s
  end.

(** The path of a language's document. *)
Definition arb_path (lang_config : LanguageConfig) : str :=
  path_join ARB_DIR (file_name lang_config).

Definition language_paths (languages : dict LanguageConfig) : list str :=
  map (fun item => arb_path (snd item)) languages.

(** The files after every document of [languages] has been written. *)
Definition written (languages : dict LanguageConfig)
    (i18n_data : dict (dict str)) (fs : dict str) : dict str :=
  fold_left (fun fs '(lang_code, lang_config) =>
               dict_set (arb_path lang_config)
                 (json_dump (lang_data lang_code i18n_data)) fs)
    languages fs.

(** ** [FeishuI18nGenerator.validate_data]

    The function prints; what is modelled is every value it prints. *)

(** [lang_code in translations and translations[lang_code]] *)
Definition has_translation (lang_code : str) (translations : dict str) : bool :=
  match dict_get lang_code translations with
  | Some value => truthy value
  | None => false
  end.

(** The body of the first loop, for one item of [i18n_data]:
    [language_counts[lang_code] += 1] for every language it translates. *)
Definition count_item (language_counts : dict nat) (item : str * dict str)
    : dict nat :=
  fold_left (fun counts lang_code =>
               if has_translation lang_code (snd item)
               then dict_update lang_code S counts else counts)
    (dict_keys LANGUAGES) language_counts.

(** [{lang: 0 for lang in LANGUAGES.keys()}] after the first loop. *)
Definition language_counts (i18n_data : dict (dict str)) : dict nat :=
  fold_left count_item i18n_data
    (map (fun lang_code => (lang_code, 0)) (dict_keys LANGUAGES)).

(** The body of the second loop, for one item:
    [missing_translations.append((key, lang_code))]. *)
Definition missing_item (missing : list (str * str)) (item : str * dict str)
    : list (str * str) :=
  fold_left (fun missing lang_code =>
               if has_translation lang_code (snd item) then missing
               else missing ++ [(fst item, lang_code)])
    (dict_keys LANGUAGES) missing.

Definition missing_translations (i18n_data : dict (dict str))
    : list (str * str) :=
  fold_left missing_item i18n_data [].

(** What [validate_data] reports: the number of keys, the count per
    language, the missing pairs, the pairs listed ([[:10]]) and the number
    announced as not listed. *)
Record coverage := Coverage {
  total_keys : nat;
  counts : dict nat;
  missing : list (str * str);
  listed : list (str * str);
  not_listed : nat
}.

Definition validate_data (i18n_data : dict (dict str)) : coverage :=
  let missing := missing_translations i18n_data in
  {| total_keys := length i18n_data;
     counts := language_counts i18n_data;
     missing := missing;
     listed := take 10 missing;
     not_listed := length missing - 10 |}.

(** ** [write_csv] and [main] of [feishu_sheets_export.py]

    The two HTTP calls are outside the model: [token_response] is what
    [get_tenant_access_token()] returns and [sheet_response token] what
    [fetch_sheet_values(token)] returns, [None] where the call raises.
    [csv.writer] belongs to the Python library: [format_row r] is the text
    one [writer.writerow(r)] hands to the file.  The source ships with an
    empty [APP_ID] and [APP_SECRET] and asks the user to fill them in.
    Console output is not part of the model. *)
Definition OUT_CSV : str := lit "language.csv".

(** A text the UTF-8 file accepts: it holds no surrogate code point
    (U+D800 to U+DFFF), which a JSON reply can bring in. *)
Definition encodable (text : str) : bool :=
  forallb (fun c => negb ((55296 <=? c) && (c <=? 57343))%N) text.

(** What stops [write_csv]: [open] raises, or the file refuses the text of
    a row. *)
Inductive write_error :=
  | CannotOpen
  | CannotEncode (row : list str).

Section Exporter.
Variables (APP_ID APP_SECRET : str).
Variable token_response : option str.
Variable sheet_response : str -> option (list (list str)).
Variable format_row : list str -> str.

(** The loop [for r in trimmed: writer.writerow(r)] on a file that holds
    [written] so far: the text of the file when the loop ends, and the
    error of the row that raised, if one did.  The rows written before it
    stay in the file. *)
Fixpoint write_rows (rows : list (list str)) (written : str)
    : str * option write_error :=
  match rows with
  | [] => (written, None)
  | r :: rest =>
      if encodable (format_row r)
      then write_rows rest (written ++ format_row r)
      else (written, Some (CannotEncode r))
  end.

(** [write_csv]: [open(OUT_CSV, "w")] empties the file before the first
    row is written. *)
Definition write_csv (rows : list (list str)) (w : world)
    : world * option write_error :=
  if contains OUT_CSV (unwritable w) then
    (World (files w) (unwritable w) (dirs w) (opened w ++ [OUT_CSV]),
     Some CannotOpen)
  else
    (World (dict_set OUT_CSV (fst (write_rows (trimmed_rows rows) []))
              (files w))
       (unwritable w) (dirs w) (opened w ++ [OUT_CSV]),
     snd (write_rows (trimmed_rows rows) [])).

Definition export_main (w : world) : world * nat :=
  if negb (truthy APP_ID) || negb (truthy APP_SECRET) then (w, 1)
  else
    match token_response with
    | None => (w, 1)
    | Some tenant_token =>
        match sheet_response tenant_token with
        | None => (w, 1)
        | Some rows =>
            match write_csv rows w with
            | (w', Some _) => (w', 1)
            | (w', None) => (w', 0)
            end
        end
    end.
End Exporter.

(** ** More notions for the statements below *)

(** The keys of a sequence in the order of their first occurrence. *)
Definition see_key (seen : list str) (key : str) : list str :=
  if contains key seen then seen else seen ++ [key].

Definition first_seen (keys : list str) : list str :=
  fold_left see_key keys [].

(** The item a map item contributes to the document of a language. *)
Definition document_item (lang_code : str) (item : str * dict str)
    : option (str * str) :=
  match dict_get lang_code (snd item) with
  | Some value => if truthy value then Some (fst item, value) else None
  | None => None
  end.

(** The pairs of one item that have no translation, in declared order. *)
Definition missing_of (languages : list str) (item : str * dict str)
    : list (str * str) :=
  map (pair (fst item))
    (List.filter (fun lang_code => negb (has_translation lang_code (snd item)))
       languages).

(** Two rows agree wherever the parser looks: at the key column and at
    every bound language column. *)
Definition same_read_cells (key_index : nat) (language_columns : dict nat)
    (row row' : list str) : Prop :=
  row !! key_index = row' !! key_index
  /\ forall lang_code col_index,
       In (lang_code, col_index) language_columns ->
       row !! col_index = row' !! col_index.

(** * Examples *)

Example parse_rows_round_trip :
  parse_rows [[lit "key"; lit "en"; lit "zh"];
              [lit "A"; lit "hello"; [20320; 22909]%N]]
  = inr [(lit "A", [(lit "en", lit "hello"); (lit "zh", [20320; 22909]%N)])].
Proof. vm_compute. reflexivity. Qed.

Example plain_csv_reader_example :
  plain_csv_reader (lit "key,en" ++ [NL] ++ lit "a,1" ++ [NL])
  = Some [[lit "key"; lit "en"]; [lit "a"; lit "1"]].
Proof. vm_compute. reflexivity. Qed.

Example json_dump_example :
  json_dump [(lit "a", lit "x" ++ [NL] ++ lit "y"); (lit "b", [233; 127; 1]%N)]
  = lit "{" ++ [NL] ++ lit "  " ++ [DQUOTE] ++ lit "a" ++ [DQUOTE] ++ lit ": "
    ++ [DQUOTE] ++ lit "x\ny" ++ [DQUOTE] ++ lit "," ++ [NL] ++ lit "  "
    ++ [DQUOTE] ++ lit "b" ++ [DQUOTE] ++ lit ": " ++ [DQUOTE]
    ++ [233; 127]%N ++ lit "\u0001" ++ [DQUOTE] ++ [NL] ++ lit "}".
Proof. vm_compute. reflexivity. Qed.

(** * Dictionaries *)

Section DictFacts.
Context {V : Type}.
Implicit Types (d : dict V) (k : str) (v : V).

Lemma dict_get_set_eq k v d : dict_get k (dict_set k v d) = Some v.
Proof.
  induction d as [|[k' v'] d IH]; simpl.
  - rewrite decide_True; done.
  - destruct (decide (k' = k)) as [->|Hne]; simpl.
    + rewrite decide_True; done.
    + rewrite decide_False; done.
Qed.

Lemma dict_get_set_ne k k' v d :
  k <> k' -> dict_get k' (dict_set k v d) = dict_get k' d.
Proof.
  intros Hne. induction d as [|[k0 v0] d IH]; simpl.
  - rewrite decide_False; done.
  - destruct (decide (k0 = k)) as [->|Hk]; simpl.
    + rewrite !decide_False; done.
    + destruct (decide (k0 = k')); done.
Qed.

Lemma dict_update_set k f v d :
  dict_update k f (dict_set k v d) = dict_set k (f v) d.
Proof.
  induction d as [|[k' v'] d IH]; simpl.
  - rewrite decide_True; done.
  - destruct (decide (k' = k)) as [->|Hne]; simpl.
    + rewrite decide_True; done.
    + rewrite decide_False by done. by rewrite IH.
Qed.

Lemma dict_keys_set k v d :
  forall k', In k' (dict_keys (dict_set k v d)) <-> k' = k \/ In k' (dict_keys d).
Proof.
  intros k'. induction d as [|[k0 v0] d IH]; simpl.
  - intuition.
  - destruct (decide (k0 = k)) as [->|Hne]; simpl; intuition.
Qed.

Lemma dict_wf_set k v d : dict_wf d -> dict_wf (dict_set k v d).
Proof.
  unfold dict_wf. induction d as [|[k0 v0] d IH]; simpl; intros Hwf.
  - repeat constructor. by intros ?%elem_of_nil.
  - apply NoDup_cons in Hwf as [Hnotin Hwf].
    destruct (decide (k0 = k)) as [->|Hne]; simpl.
    + apply NoDup_cons. done.
    + apply NoDup_cons. split; [|by apply IH].
      rewrite list_elem_of_In. rewrite dict_keys_set.
      intros [?|Hin]; [done|]. apply Hnotin. by apply list_elem_of_In.
Qed.

Lemma dict_get_None k d : dict_get k d = None <-> ~ In k (dict_keys d).
Proof.
  induction d as [|[k0 v0] d IH]; simpl; [intuition|].
  destruct (decide (k0 = k)) as [->|Hne]; [intuition congruence|].
  rewrite IH. intuition.
Qed.

Lemma dict_get_Some_In k v d : dict_get k d = Some v -> In (k, v) d.
Proof.
  induction d as [|[k0 v0] d IH]; simpl; [done|].
  destruct (decide (k0 = k)) as [->|Hne]; [|by auto].
  intros [= ->]. by left.
Qed.

Lemma dict_mem_true k d : dict_mem k d = true <-> exists v, dict_get k d = Some v.
Proof.
  unfold dict_mem. destruct (dict_get k d); split; eauto; try done.
  intros [? ?]; done.
Qed.
End DictFacts.

(** * Cell cleaning *)

Lemma pair_ind (P : str -> Prop) :
  P [] -> (forall x, P [x]) ->
  (forall x y t, P t -> P (y :: t) -> P (x :: y :: t)) ->
  forall s, P s.
Proof.
  intros Hnil Hone Hstep s.
  assert (P s /\ forall x, P (x :: s)) as [? _]; [|done].
  induction s as [|y t [IHt IHyt]]; split; auto.
Qed.

Lemma replace2_step a b new x y t :
  replace2 a b new (x :: y :: t)
  = if ((x =? a) && (y =? b))%N then new ++ replace2 a b new t
    else x :: replace2 a b new (y :: t).
Proof. reflexivity. Qed.

Lemma replace2_cons_ne a b new x s :
  x <> a -> replace2 a b new (x :: s) = x :: replace2 a b new s.
Proof.
  intros Hne. destruct s as [|y t]; [done|].
  rewrite replace2_step. apply N.eqb_neq in Hne. by rewrite Hne.
Qed.

Lemma unescape_step x y t :
  unescape (x :: y :: t)
  = if ((x =? BACKSLASH) && (y =? 110))%N then NL :: unescape t
    else if ((x =? BACKSLASH) && (y =? DQUOTE))%N then DQUOTE :: unescape t
    else x :: unescape (y :: t).
Proof. reflexivity. Qed.

(** The first replacement never puts a double quote where none was. *)
Lemma replace_newline_head y t :
  y <> DQUOTE ->
  exists z rest, replace2 BACKSLASH 110%N [NL] (y :: t) = z :: rest /\ z <> DQUOTE.
Proof.
  intros Hy. destruct t as [|y' t]; [by exists y, []|].
  rewrite replace2_step. destruct ((y =? BACKSLASH) && (y' =? 110))%N.
  - exists NL, (replace2 BACKSLASH 110%N [NL] t). split; [done|]. by compute.
  - by eexists _, _.
Qed.

(** The two successive [replace] calls do what one left-to-right pass over
    both escape sequences does. *)
Lemma replace_twice_unescape s :
  replace2 BACKSLASH DQUOTE [DQUOTE] (replace2 BACKSLASH 110%N [NL] s)
  = unescape s.
Proof.
  induction s as [|x|x y t IHt IHyt] using pair_ind; [done..|].
  rewrite replace2_step, unescape_step.
  destruct (x =? BACKSLASH)%N eqn:Hx; simpl andb; cbv iota.
  - apply N.eqb_eq in Hx as ->.
    destruct (y =? 110)%N eqn:Hn; cbv iota.
    + simpl app. rewrite replace2_cons_ne by (by compute). by rewrite IHt.
    + destruct (y =? DQUOTE)%N eqn:Hq; cbv iota.
      * apply N.eqb_eq in Hq as ->.
        rewrite (replace2_cons_ne _ _ _ DQUOTE) by (by compute).
        rewrite replace2_step. simpl. by rewrite IHt.
      * apply N.eqb_neq in Hq.
        destruct (replace_newline_head y t Hq) as (z & rest & Hz & Hzq).
        rewrite <- IHyt, Hz, replace2_step.
        apply N.eqb_neq in Hzq. rewrite Hzq. simpl. done.
  - apply N.eqb_neq in Hx. rewrite replace2_cons_ne by done. by rewrite IHyt.
Qed.

Lemma clean_value_unescape cell : clean_value cell = unescape (strip cell).
Proof. apply replace_twice_unescape. Qed.

(** * Header resolution *)

Lemma language_columns_from_wf i headers lc :
  dict_wf lc -> dict_wf (language_columns_from i headers lc).
Proof.
  revert i lc. induction headers as [|h rest IH]; intros i lc Hwf; simpl; [done|].
  destruct (decide _); [by apply IH|].
  destruct (dict_mem _ _); apply IH; [by apply dict_wf_set|done].
Qed.

Lemma language_columns_from_declared i headers lc :
  (forall lang, In lang (dict_keys lc) -> dict_mem lang LANGUAGES = true) ->
  forall lang, In lang (dict_keys (language_columns_from i headers lc)) ->
               dict_mem lang LANGUAGES = true.
Proof.
  revert i lc. induction headers as [|h rest IH]; intros i lc Hlc; simpl; [done|].
  destruct (decide _); [by apply IH|].
  destruct (dict_mem (lower h) LANGUAGES) eqn:Hmem; apply IH; [|done].
  intros lang [->|Hin]%dict_keys_set; auto.
Qed.

Lemma language_columns_wf headers : dict_wf (language_columns headers).
Proof. apply language_columns_from_wf. constructor. Qed.

Lemma language_columns_declared headers lang :
  In lang (dict_keys (language_columns headers)) -> dict_mem lang LANGUAGES = true.
Proof. apply language_columns_from_declared. intros ? []. Qed.

(** * Rows *)

Lemma store_cells_entry key row lc entry result :
  fold_left (store_cell key row) lc (dict_set key entry result)
  = dict_set key (fold_left (entry_cell row) lc entry) result.
Proof.
  revert entry. induction lc as [|[lang col] lc IH]; intros entry; simpl; [done|].
  destruct (row !! col) as [cell|]; [|by apply IH].
  rewrite dict_update_set. apply IH.
Qed.

(** A row either leaves the result alone or puts its own translation set
    under its key, whatever was there before. *)
Lemma process_row_entry key_index lc result row :
  process_row key_index lc result row
  = match row_key key_index row with
    | Some key => dict_set key (row_entry lc row) result
    | None => result
    end.
Proof.
  unfold process_row, row_key. destruct (row !! key_index) as [cell|]; [|done].
  destruct (truthy (strip cell)); [|done]. apply store_cells_entry.
Qed.

Lemma entry_cells_get row lang lc entry :
  dict_wf lc ->
  dict_get lang (fold_left (entry_cell row) lc entry)
  = match dict_get lang lc with
    | Some col_index =>
        match row !! col_index with
        | Some cell => Some (clean_value cell)
        | None => dict_get lang entry
        end
    | None => dict_get lang entry
    end.
Proof.
  revert entry. induction lc as [|[l col] lc IH]; intros entry Hwf; [done|].
  apply NoDup_cons in Hwf as [Hnotin Hwf]. simpl.
  rewrite IH by done. destruct (decide (l = lang)) as [->|Hne].
  - assert (dict_get lang lc = None) as ->.
    { apply dict_get_None. by rewrite <- list_elem_of_In. }
    destruct (row !! col); [by rewrite dict_get_set_eq|done].
  - destruct (dict_get lang lc) as [c|]; destruct (row !! col); simpl;
      rewrite ?dict_get_set_ne by done; done.
Qed.

(** What a row's translation set holds for a language: the cleaned cell of
    the bound column, and nothing when the language is not bound or the row
    does not reach the column. *)
Lemma row_entry_get lc row lang :
  dict_wf lc ->
  dict_get lang (row_entry lc row)
  = match dict_get lang lc with
    | Some col_index => clean_value <$> row !! col_index
    | None => None
    end.
Proof.
  intros Hwf. unfold row_entry. rewrite entry_cells_get by done.
  destruct (dict_get lang lc) as [col|]; [|done]. by destruct (row !! col).
Qed.

Section Rows.
Variables (key_index : nat) (lc : dict nat).
Implicit Types (result : dict (dict str)) (row : list str).

Let step := process_row key_index lc.

Lemma rows_get_other key post result :
  (forall row, In row post -> row_key key_index row <> Some key) ->
  dict_get key (fold_left step post result) = dict_get key result.
Proof.
  revert result. induction post as [|row post IH]; intros result Hno; [done|].
  simpl. rewrite IH by (intros; apply Hno; by right).
  unfold step. rewrite process_row_entry.
  destruct (row_key key_index row) as [k|] eqn:Hk; [|done].
  apply dict_get_set_ne. intros ->. by apply (Hno row); [left|].
Qed.

Lemma rows_get_last key pre row post result :
  row_key key_index row = Some key ->
  (forall r, In r post -> row_key key_index r <> Some key) ->
  dict_get key (fold_left step (pre ++ row :: post) result)
  = Some (row_entry lc row).
Proof.
  intros Hkey Hno. rewrite fold_left_app. simpl.
  rewrite rows_get_other by done.
  unfold step at 1. rewrite process_row_entry, Hkey. apply dict_get_set_eq.
Qed.

Lemma rows_get_origin key entry data result :
  dict_get key (fold_left step data result) = Some entry ->
  dict_get key result = Some entry
  \/ exists row, In row data /\ row_key key_index row = Some key
                 /\ entry = row_entry lc row.
Proof.
  revert result. induction data as [|row data IH]; intros result; [by left|].
  simpl. intros [Hres|(r & Hin & Hk & ->)]%IH.
  - unfold step in Hres. rewrite process_row_entry in Hres.
    destruct (row_key key_index row) as [k|] eqn:Hk; [|by left].
    destruct (decide (k = key)) as [->|Hne].
    + rewrite dict_get_set_eq in Hres. injection Hres as <-.
      right. exists row. by repeat split; [left|..].
    + rewrite dict_get_set_ne in Hres by done. by left.
  - right. exists r. by repeat split; [right|..].
Qed.

Lemma rows_wf data result : dict_wf result -> dict_wf (fold_left step data result).
Proof.
  revert result. induction data as [|row data IH]; intros result Hwf; [done|].
  simpl. apply IH. unfold step. rewrite process_row_entry.
  destruct (row_key key_index row); [by apply dict_wf_set|done].
Qed.

Lemma empty_row_no_key row : is_empty_row row = true -> row_key key_index row = None.
Proof.
  unfold is_empty_row, row_key. intros Hall.
  destruct (row !! key_index) as [cell|] eqn:Hcell; [|done].
  rewrite forallb_forall in Hall.
  apply list_elem_of_lookup_2, list_elem_of_In, Hall in Hcell.
  by destruct (truthy (strip cell)).
Qed.

Lemma rows_skip_empty blank result :
  Forall (fun row => is_empty_row row = true) blank ->
  fold_left step blank result = result.
Proof.
  induction 1 as [|row blank Hrow _ IH]; [done|]. simpl.
  unfold step at 2. by rewrite process_row_entry, empty_row_no_key.
Qed.
End Rows.

(** * [parse_rows] case by case *)

Lemma parse_rows_short rows :
  length rows < 2 -> parse_rows rows = inl MalformedTableError.
Proof. intros Hlen. unfold parse_rows. by rewrite decide_True. Qed.

Lemma parse_rows_cons hdr row data :
  parse_rows (hdr :: row :: data)
  = if negb (contains (lit "key") (parse_headers hdr)) then
      inl MissingKeyColumnError
    else match columns_of hdr with
         | [] => inl NoMatchingLanguageColumnsError
         | _ :: _ =>
             inr (fold_left (process_row (key_index_of hdr) (columns_of hdr))
                    (row :: data) [])
         end.
Proof. unfold parse_rows. rewrite decide_False by (simpl; lia). done. Qed.

Lemma parse_rows_accepted rows m :
  parse_rows rows = inr m ->
  exists hdr row data,
    rows = hdr :: row :: data
    /\ contains (lit "key") (parse_headers hdr) = true
    /\ columns_of hdr <> []
    /\ m = fold_left (process_row (key_index_of hdr) (columns_of hdr))
             (row :: data) [].
Proof.
  destruct rows as [|hdr [|row data]]; [by rewrite parse_rows_short by (simpl; lia)..|].
  rewrite parse_rows_cons. intros Hparse. exists hdr, row, data.
  destruct (contains _ _); [|done]. simpl in Hparse.
  destruct (columns_of hdr); [done|]. by injection Hparse as <-.
Qed.

Lemma parse_rows_wf rows m : parse_rows rows = inr m -> dict_wf m.
Proof.
  intros (hdr & row & data & -> & _ & _ & ->)%parse_rows_accepted.
  apply rows_wf. constructor.
Qed.

(** * The flat mapping of a language *)

Lemma dict_get_In_wf {V} (d : dict V) k v :
  dict_wf d -> In (k, v) d -> dict_get k d = Some v.
Proof.
  unfold dict_wf. induction d as [|[k0 v0] d IH]; simpl; [done|].
  intros [Hnotin Hwf]%NoDup_cons [[= -> ->]|Hin].
  - by rewrite decide_True.
  - rewrite decide_False; [by apply IH|]. intros ->. apply Hnotin.
    apply list_elem_of_In. change k with (fst (k, v)). by apply in_map.
Qed.

Lemma collect_get lang key items acc :
  dict_wf items ->
  dict_get key (fold_left (collect lang) items acc)
  = match dict_get key items with
    | Some entry =>
        match dict_get lang entry with
        | Some value => if truthy value then Some value else dict_get key acc
        | None => dict_get key acc
        end
    | None => dict_get key acc
    end.
Proof.
  revert acc. induction items as [|[k entry] items IH]; intros acc Hwf; [done|].
  apply NoDup_cons in Hwf as [Hnotin Hwf]. simpl. rewrite IH by done.
  destruct (decide (k = key)) as [->|Hne].
  - assert (dict_get key items = None) as ->.
    { apply dict_get_None. by rewrite <- list_elem_of_In. }
    destruct (dict_get lang entry) as [value|]; [|done].
    destruct (truthy value); [by rewrite dict_get_set_eq|done].
  - destruct (dict_get key items) as [entry'|];
      [destruct (dict_get lang entry') as [value'|]; [destruct (truthy value')|]|];
      try done;
      (destruct (dict_get lang entry) as [value|]; [|done]);
      (destruct (truthy value); [by rewrite dict_get_set_ne|done]).
Qed.

Lemma lang_data_get lang key m :
  dict_wf m ->
  dict_get key (lang_data lang m)
  = match dict_get key m with
    | Some entry =>
        match dict_get lang entry with
        | Some value => if truthy value then Some value else None
        | None => None
        end
    | None => None
    end.
Proof. intros Hwf. unfold lang_data. by rewrite collect_get. Qed.

(** * Writing the documents *)

Lemma contains_true x xs : contains x xs = true <-> In x xs.
Proof. unfold contains. by rewrite bool_decide_eq_true, list_elem_of_In. Qed.

Lemma contains_false x xs : contains x xs = false <-> ~ In x xs.
Proof. unfold contains. by rewrite bool_decide_eq_false, list_elem_of_In. Qed.

Lemma language_paths_NoDup : NoDup (language_paths LANGUAGES).
Proof. apply (bool_decide_unpack _). by vm_compute. Qed.

Section Emit.
Variable i18n_data : dict (dict str).
Implicit Types (w : world) (languages : dict LanguageConfig).

Lemma generate_loop_ok languages w :
  (forall lang cfg, In (lang, cfg) languages -> ~ In (arb_path cfg) (unwritable w)) ->
  generate_loop languages i18n_data w
  = (World (written languages i18n_data (files w)) (unwritable w) (dirs w)
       (opened w ++ language_paths languages), None).
Proof.
  revert w. induction languages as [|[lang cfg] languages IH]; intros w Hok.
  - simpl. rewrite app_nil_r. by destruct w.
  - simpl. unfold write_text. fold (arb_path cfg).
    rewrite (proj2 (contains_false _ _)) by (apply (Hok lang); by left).
    rewrite IH by (intros l c Hin; apply (Hok l c); by right).
    simpl. by rewrite <- app_assoc.
Qed.

Lemma generate_loop_app before after w :
  generate_loop (before ++ after) i18n_data w
  = match generate_loop before i18n_data w with
    | (w', None) => generate_loop after i18n_data w'
    | (w', Some e) => (w', Some e)
    end.
Proof.
  revert w. induction before as [|[lang cfg] before IH]; intros w; [done|].
  simpl. destruct (write_text _ _ w) as [w' [e|]]; [done|]. apply IH.
Qed.

Lemma generate_loop_stops before lang cfg after w :
  (forall l c, In (l, c) before -> ~ In (arb_path c) (unwritable w)) ->
  In (arb_path cfg) (unwritable w) ->
  generate_loop (before ++ (lang, cfg) :: after) i18n_data w
  = (World (written before i18n_data (files w)) (unwritable w) (dirs w)
       (opened w ++ language_paths before ++ [arb_path cfg]),
     Some (OSError (arb_path cfg))).
Proof.
  intros Hok Hbad. rewrite generate_loop_app, generate_loop_ok by done.
  simpl. unfold write_text. fold (arb_path cfg). simpl.
  rewrite (proj2 (contains_true _ _)) by done. by rewrite <- app_assoc.
Qed.

Lemma generate_loop_None languages w w' :
  generate_loop languages i18n_data w = (w', None) ->
  files w' = written languages i18n_data (files w).
Proof.
  revert w. induction languages as [|[lang cfg] languages IH]; intros w.
  - by intros [= <-].
  - simpl. unfold write_text. destruct (contains _ _); [done|].
    intros Hrest%IH. by rewrite Hrest.
Qed.

Lemma written_cons lang cfg languages fs :
  written ((lang, cfg) :: languages) i18n_data fs
  = written languages i18n_data
      (dict_set (arb_path cfg) (json_dump (lang_data lang i18n_data)) fs).
Proof. reflexivity. Qed.

Lemma written_get_other path languages fs :
  ~ In path (language_paths languages) ->
  dict_get path (written languages i18n_data fs) = dict_get path fs.
Proof.
  revert fs. induction languages as [|[lang cfg] languages IH]; intros fs Hnot; [done|].
  simpl in Hnot. rewrite written_cons, IH by tauto.
  apply dict_get_set_ne. tauto.
Qed.

Lemma written_get languages fs lang cfg :
  NoDup (language_paths languages) ->
  In (lang, cfg) languages ->
  dict_get (arb_path cfg) (written languages i18n_data fs)
  = Some (json_dump (lang_data lang i18n_data)).
Proof.
  revert fs. induction languages as [|[l c] languages IH]; intros fs Hnd Hin; [done|].
  simpl in Hnd. apply NoDup_cons in Hnd as [Hnotin Hnd]. rewrite written_cons.
  destruct Hin as [[= -> ->]|Hin]; [|by apply IH].
  rewrite written_get_other by (by rewrite <- list_elem_of_In).
  apply dict_get_set_eq.
Qed.
End Emit.

(** * The key column *)

Lemma parse_headers_In header row0 :
  In header (parse_headers row0)
  <-> header <> [] /\ exists cell, In cell row0 /\ strip cell = header.
Proof.
  unfold parse_headers. rewrite in_map_iff. split.
  - intros (cell & <- & [Hin Htruthy]%filter_In). split; [|by eauto].
    by destruct (strip cell).
  - intros [Hne (cell & Hin & <-)]. exists cell. split; [done|].
    apply filter_In. split; [done|]. by destruct (strip cell).
Qed.

(** C1 (defect in the code).  The membership test for the key column
    compares the trimmed header cells with the lower-case word [key]
    exactly, although the loop over the headers lower-cases them first.  A
    table whose key header is spelled [Key] is therefore rejected with
    [MissingKeyColumnError] even though that cell, trimmed and lower-cased,
    is [key]; in general a table with two or more rows gets this error
    exactly when no header cell trims to the exact word [key]. *)
Theorem capitalised_key_header_is_rejected :
  lower (strip (lit "Key")) = lit "key"
  /\ parse_rows [[lit "Key"; lit "en"]; [lit "a"; lit "1"]]
     = inl MissingKeyColumnError
  /\ forall hdr row data,
       parse_rows (hdr :: row :: data) = inl MissingKeyColumnError
       <-> ~ exists cell, In cell hdr /\ strip cell = lit "key".
Proof.
  split; [by vm_compute|]. split; [by vm_compute|].
  intros hdr row data. rewrite parse_rows_cons.
  destruct (contains (lit "key") (parse_headers hdr)) eqn:Hc; simpl.
  - apply contains_true, parse_headers_In in Hc as [_ Hex].
    split; [|done]. by destruct (columns_of hdr).
  - apply contains_false in Hc. split; [|done]. intros _ Hex. apply Hc.
    apply parse_headers_In. split; [by vm_compute|done].
Qed.

(** * Column binding *)

(** C2 (defect in the code).  The header list is filtered before it is
    enumerated, so an empty header cell shifts every later binding one
    column to the left while the data rows keep their cells in place.  With
    the header [key, (empty), en] the language [en] is bound to column 1,
    and the row [a, (empty), hello] stores the empty cell instead of
    [hello]; with an empty cell before the key column the key itself is
    read from the wrong cell and the row is dropped. *)
Theorem empty_header_cell_shifts_bindings :
  columns_of [lit "key"; []; lit "en"] = [(lit "en", 1)]
  /\ [lit "key"; []; lit "en"] !! 2 = Some (lit "en")
  /\ parse_rows [[lit "key"; []; lit "en"]; [lit "a"; []; lit "hello"]]
     = inr [(lit "a", [(lit "en", [])])]
  /\ parse_rows [[[]; lit "key"; lit "en"]; [[]; lit "a"; lit "1"]] = inr [].
Proof. repeat split; by vm_compute. Qed.

(** * Duplicate keys *)

(** C3.  In an accepted table, the entry of a key is the translation set of
    the last data row carrying that key, which is the entry the table made
    of the header and that row alone would give: nothing of earlier rows
    with the same key survives. *)
Theorem duplicate_key_last_row_wins hdr pre row post key m :
  parse_rows (hdr :: pre ++ row :: post) = inr m ->
  row_key (key_index_of hdr) row = Some key ->
  (forall r, In r post -> row_key (key_index_of hdr) r <> Some key) ->
  dict_get key m = Some (row_entry (columns_of hdr) row)
  /\ parse_rows [hdr; row] = inr [(key, row_entry (columns_of hdr) row)].
Proof.
  intros Hparse Hkey Hpost.
  destruct (parse_rows_accepted _ _ Hparse) as (h & r0 & data & Heq & Hc & Hlc & ->).
  injection Heq as <- Hdata. rewrite <- Hdata. split.
  - by apply rows_get_last.
  - rewrite parse_rows_cons, Hc. simpl.
    destruct (columns_of hdr) as [|b lc] eqn:Hcols; [done|].
    by rewrite process_row_entry, Hkey.
Qed.

(** * Stored values *)

(** C6.  In an accepted table every entry of the map comes from a data row
    with that key, and for each bound language the entry holds the cell of
    the bound column, trimmed and with the two escape sequences replaced,
    when the row reaches that column, and holds nothing for that language
    when the column index is at or beyond the row's length. *)
Theorem stored_values_are_cleaned_cells hdr data m key entry :
  parse_rows (hdr :: data) = inr m ->
  dict_get key m = Some entry ->
  exists row,
    In row data /\ row_key (key_index_of hdr) row = Some key
    /\ forall lang col,
         dict_get lang (columns_of hdr) = Some col ->
         dict_get lang entry = (fun cell => unescape (strip cell)) <$> row !! col
         /\ (length row <= col -> dict_get lang entry = None).
Proof.
  intros Hparse Hget.
  destruct (parse_rows_accepted _ _ Hparse) as (h & r0 & rest & Heq & _ & _ & ->).
  injection Heq as <- ->.
  apply rows_get_origin in Hget as [?|(row & Hin & Hkey & ->)]; [done|].
  exists row. split; [done|]. split; [done|]. intros lang col Hcol.
  rewrite row_entry_get, Hcol by apply language_columns_wf. split.
  - destruct (row !! col); simpl; [|done]. by rewrite clean_value_unescape.
  - intros Hlen. by rewrite lookup_ge_None_2.
Qed.

(** * Blank rows *)

(** C8.  Blank rows contribute no key and truncate nothing.  The two tables
    of the specification parse to the keys [a], and [a] and [b]; the
    trailing-row trim of the exporter removes the blank tail of the first
    and leaves the interior blank row of the second in place.  In general a
    run of blank rows anywhere among the data rows changes nothing in the
    outcome of [parse_rows], as long as a data row remains, and a blank tail
    changes nothing in what the exporter writes. *)
Theorem blank_rows_are_skipped :
  parse_rows [[lit "key"; lit "en"]; [lit "a"; lit "1"];
              [[]; lit "  "]; [[]; lit "  "]]
  = inr [(lit "a", [(lit "en", lit "1")])]
  /\ parse_rows [[lit "key"; lit "en"]; [lit "a"; lit "1"]; [[]; []];
                 [lit "b"; lit "2"]]
     = inr [(lit "a", [(lit "en", lit "1")]); (lit "b", [(lit "en", lit "2")])]
  /\ trimmed_rows [[lit "key"; lit "en"]; [lit "a"; lit "1"];
                   [[]; lit "  "]; [[]; lit "  "]]
     = [[lit "key"; lit "en"]; [lit "a"; lit "1"]]
  /\ trimmed_rows [[lit "key"; lit "en"]; [lit "a"; lit "1"]; [[]; []];
                   [lit "b"; lit "2"]]
     = [[lit "key"; lit "en"]; [lit "a"; lit "1"]; [[]; []]; [lit "b"; lit "2"]]
  /\ (forall hdr pre blank post,
        Forall (fun row => is_empty_row row = true) blank ->
        pre ++ post <> [] ->
        parse_rows (hdr :: pre ++ blank ++ post) = parse_rows (hdr :: pre ++ post))
  /\ (forall rows blank,
        Forall (fun row => is_empty_row row = true) blank ->
        trimmed_rows (rows ++ blank) = trimmed_rows rows).
Proof.
  do 4 (split; [by vm_compute|]). split.
  - intros hdr pre blank post Hblank Hne.
    assert (forall data, data <> [] ->
              parse_rows (hdr :: data)
              = if negb (contains (lit "key") (parse_headers hdr)) then
                  inl MissingKeyColumnError
                else match columns_of hdr with
                     | [] => inl NoMatchingLanguageColumnsError
                     | _ :: _ =>
                         inr (fold_left
                                (process_row (key_index_of hdr) (columns_of hdr))
                                data [])
                     end) as Hshape.
    { intros [|row data] Hdata; [done|]. apply parse_rows_cons. }
    rewrite !Hshape; [|done|].
    + rewrite !fold_left_app. by rewrite (rows_skip_empty _ _ blank).
    + intros Heq. apply Hne.
      apply app_eq_nil in Heq as [-> [_ ->]%app_eq_nil]. done.
  - intros rows blank Hblank. unfold trimmed_rows. rewrite rev_app_distr.
    f_equal. apply Forall_rev in Hblank.
    induction Hblank as [|row blank' Hrow _ IH]; [done|].
    simpl. by rewrite Hrow.
Qed.

(** * Languages of the map and of the documents *)

Lemma dict_get_Some_key {V} (d : dict V) k v :
  dict_get k d = Some v -> In k (dict_keys d).
Proof.
  intros Hin%dict_get_Some_In. change k with (fst (k, v)). by apply in_map.
Qed.

Lemma dict_key_get {V} (d : dict V) k :
  In k (dict_keys d) -> exists v, dict_get k d = Some v.
Proof.
  intros Hin. destruct (dict_get k d) as [v|] eqn:Hget; [by eauto|].
  by apply dict_get_None in Hget.
Qed.

(** X21.  In the map of an accepted table every language code of every
    inner mapping is a declared language; every key of a language's
    document is a key of the map, and its value is the one the map holds
    for that key and language. *)
Theorem inner_languages_are_declared rows m :
  parse_rows rows = inr m ->
  (forall key entry lang,
     In (key, entry) m -> In lang (dict_keys entry) ->
     dict_mem lang LANGUAGES = true)
  /\ (forall lang key,
        In key (dict_keys (lang_data lang m)) -> In key (dict_keys m))
  /\ (forall lang key value,
        dict_get key (lang_data lang m) = Some value ->
        exists entry, dict_get key m = Some entry
                      /\ dict_get lang entry = Some value).
Proof.
  intros Hparse. pose proof (parse_rows_wf _ _ Hparse) as Hwf.
  assert (forall lang key value,
            dict_get key (lang_data lang m) = Some value ->
            exists entry, dict_get key m = Some entry
                          /\ dict_get lang entry = Some value) as Hdoc.
  { intros lang key value. rewrite lang_data_get by done.
    destruct (dict_get key m) as [entry|]; [|done].
    destruct (dict_get lang entry) as [v|] eqn:Hv; [|done].
    destruct (truthy v); [|done]. intros [= <-]. by exists entry. }
  split; [|split; [|done]].
  - intros key entry lang Hin Hlang.
    apply (dict_get_In_wf _ _ _ Hwf) in Hin.
    destruct (parse_rows_accepted _ _ Hparse) as (hdr & r0 & data & _ & _ & _ & ->).
    apply rows_get_origin in Hin as [?|(row & _ & _ & ->)]; [done|].
    apply dict_key_get in Hlang as [value Hvalue].
    rewrite row_entry_get in Hvalue by apply language_columns_wf.
    destruct (dict_get lang (columns_of hdr)) as [col|] eqn:Hcol; [|done].
    eapply language_columns_declared, dict_get_Some_key, Hcol.
  - intros lang key [value Hvalue]%dict_key_get.
    apply Hdoc in Hvalue as (entry & Hentry & _).
    by eapply dict_get_Some_key.
Qed.

(** * Which keys a document holds *)

(** C5, as the code has it.  A language's document holds a key exactly when
    the map has a value for that key and language and the value is not the
    empty string; no document holds an empty string.  The value is not
    trimmed again at this point. *)
Theorem document_holds_nonempty_values m lang key :
  dict_wf m ->
  (In key (dict_keys (lang_data lang m))
   <-> exists entry value,
         dict_get key m = Some entry /\ dict_get lang entry = Some value
         /\ value <> [])
  /\ (forall value, dict_get key (lang_data lang m) = Some value -> value <> []).
Proof.
  intros Hwf.
  assert (forall value,
            dict_get key (lang_data lang m) = Some value
            <-> exists entry, dict_get key m = Some entry
                              /\ dict_get lang entry = Some value
                              /\ value <> []) as Hget.
  { intros value. rewrite lang_data_get by done. split.
    - destruct (dict_get key m) as [entry|]; [|done].
      destruct (dict_get lang entry) as [v|] eqn:Hv; [|done].
      destruct v as [|c v]; [done|]. intros [= <-]. by exists entry.
    - intros (entry & -> & -> & Hne). by destruct value. }
  split; [split|].
  - intros [value (entry & ? & ? & ?)%Hget]%dict_key_get. by exists entry, value.
  - intros (entry & value & ? & ? & ?).
    apply (dict_get_Some_key _ _ value), Hget. by exists entry.
  - intros value (entry & _ & _ & Hne)%Hget. done.
Qed.

(** C5 as stated fails.  A cell that holds only the escape sequence for a
    newline is stored as one newline character; that value is empty after
    trimming, and the document of the language holds the key all the same,
    so "in the document exactly when non-empty after trimming" is false for
    this table, language and key. *)
Lemma escaped_newline_cell_is_emitted :
  parse_rows [[lit "key"; lit "en"]; [lit "a"; lit "\n"]]
  = inr [(lit "a", [(lit "en", [NL])])]
  /\ dict_mem (lit "en") LANGUAGES = true
  /\ strip [NL] = []
  /\ dict_get (lit "a") (lang_data (lit "en") [(lit "a", [(lit "en", [NL])])])
     = Some [NL]
  /\ ~ (In (lit "a")
          (dict_keys (lang_data (lit "en") [(lit "a", [(lit "en", [NL])])]))
        <-> exists entry value,
              dict_get (lit "a") [(lit "a", [(lit "en", [NL])])] = Some entry
              /\ dict_get (lit "en") entry = Some value
              /\ strip value <> []).
Proof.
  do 4 (split; [by vm_compute|]).
  intros [Hkeys _].
  destruct Hkeys as (entry & value & Hentry & Hvalue & Hstrip).
  { vm_compute. by left. }
  vm_compute in Hentry. injection Hentry as <-.
  vm_compute in Hvalue. injection Hvalue as <-.
  apply Hstrip. by vm_compute.
Qed.

(** * Write failures *)



(** * Determinism *)

(** C9.  Two runs on the same CSV text that both complete leave, for every
    declared language, the same document at that language's path, whatever
    the two worlds held before. *)
Theorem emitted_documents_are_deterministic
    (csv_reader : str -> option (list (list str)))
    csv_content data1 data2 w1 w2 w1' w2' :
  parse_csv_data csv_reader csv_content = inr data1 ->
  parse_csv_data csv_reader csv_content = inr data2 ->
  generate_json_files data1 w1 = (w1', None) ->
  generate_json_files data2 w2 = (w2', None) ->
  forall lang cfg,
    In (lang, cfg) LANGUAGES ->
    exists document,
      dict_get (arb_path cfg) (files w1') = Some document
      /\ dict_get (arb_path cfg) (files w2') = Some document.
Proof.
  intros Hparse1 Hparse2 Hrun1 Hrun2 lang cfg Hin.
  rewrite Hparse1 in Hparse2. injection Hparse2 as <-.
  apply generate_loop_None in Hrun1, Hrun2. rewrite Hrun1, Hrun2.
  exists (json_dump (lang_data lang data1)).
  split; by apply written_get; [apply language_paths_NoDup|].
Qed.

(** * Too few rows *)

Lemma parse_rows_malformed_iff rows :
  parse_rows rows = inl MalformedTableError <-> length rows < 2.
Proof.
  split; [|apply parse_rows_short].
  unfold parse_rows. destruct (decide (length rows < 2)); [done|].
  destruct (negb _); [done|]. by destruct (language_columns _).
Qed.

Lemma makedirs_files path w : files (makedirs path w) = files w.
Proof. unfold makedirs. by destruct (contains _ _). Qed.

Lemma makedirs_opened path w : opened (makedirs path w) = opened w.
Proof. unfold makedirs. by destruct (contains _ _). Qed.

(** C4.  [parse_csv_data] raises the too-few-rows error exactly when the
    row list has fewer than two rows; [main] then ends with status 1, no
    file has changed and no document has been opened for writing. *)
Theorem too_few_rows_is_malformed
    (csv_reader : str -> option (list (list str))) csv_content rows :
  csv_reader (strip_bom csv_content) = Some rows ->
  (parse_csv_data csv_reader csv_content = inl (ValueError MalformedTableError)
   <-> length rows < 2)
  /\ (length rows < 2 ->
      forall csv_path w,
        dict_get csv_path (files w) = Some csv_content ->
        exists w', main csv_reader csv_path w = (w', 1)
                   /\ files w' = files w /\ opened w' = opened w).
Proof.
  intros Hrows. split.
  - unfold parse_csv_data. rewrite Hrows, <- parse_rows_malformed_iff.
    destruct (parse_rows rows) as [e|result]; [|done].
    split; [by intros [= ->]|by intros [= ->]].
  - intros Hlen csv_path w Hread. exists (makedirs ARB_DIR w).
    unfold main, parse_csv_data. cbv zeta.
    rewrite makedirs_files, makedirs_opened, Hread, Hrows.
    by rewrite parse_rows_short.
Qed.

(** * The theorems at concrete inputs *)

Lemma duplicate_key_last_row_wins_witness :
  parse_rows [[lit "key"; lit "en"]; [lit "a"; lit "1"]; [lit "a"; lit "2"]]
  = inr [(lit "a", [(lit "en", lit "2")])]
  /\ row_entry (columns_of [lit "key"; lit "en"]) [lit "a"; lit "2"]
     = [(lit "en", lit "2")]
  /\ dict_get (lit "a") [(lit "a", [(lit "en", lit "2")])]
     = Some (row_entry (columns_of [lit "key"; lit "en"]) [lit "a"; lit "2"])
  /\ parse_rows [[lit "key"; lit "en"]; [lit "a"; lit "2"]]
     = inr [(lit "a",
             row_entry (columns_of [lit "key"; lit "en"]) [lit "a"; lit "2"])].
Proof.
  split; [by vm_compute|]. split; [by vm_compute|].
  apply (duplicate_key_last_row_wins [lit "key"; lit "en"]
           [[lit "a"; lit "1"]] [lit "a"; lit "2"] [] (lit "a")).
  - by vm_compute.
  - by vm_compute.
  - intros r [].
Defined.

Lemma stored_values_are_cleaned_cells_witness :
  exists row,
    In row [[lit "a"; lit " hi\n "]]
    /\ row_key (key_index_of [lit "key"; lit "en"; lit "zh"]) row
       = Some (lit "a")
    /\ forall lang col,
         dict_get lang (columns_of [lit "key"; lit "en"; lit "zh"]) = Some col ->
         dict_get lang [(lit "en", lit "hi" ++ [NL])]
         = (fun cell => unescape (strip cell)) <$> row !! col
         /\ (length row <= col ->
             dict_get lang [(lit "en", lit "hi" ++ [NL])] = None).
Proof.
  apply (stored_values_are_cleaned_cells [lit "key"; lit "en"; lit "zh"]
           [[lit "a"; lit " hi\n "]]
           [(lit "a", [(lit "en", lit "hi" ++ [NL])])] (lit "a")).
  - by vm_compute.
  - by vm_compute.
Defined.

Lemma blank_rows_are_skipped_witness :
  parse_rows ([lit "key"; lit "en"] :: [[lit "a"; lit "1"]]
              ++ [[[]; lit " "]; []] ++ [[lit "b"; lit "2"]])
  = parse_rows ([lit "key"; lit "en"] :: [[lit "a"; lit "1"]]
                ++ [[lit "b"; lit "2"]])
  /\ trimmed_rows ([[lit "key"; lit "en"]; [lit "a"; lit "1"]]
                   ++ [[[]; lit " "]; []])
     = trimmed_rows [[lit "key"; lit "en"]; [lit "a"; lit "1"]].
Proof.
  destruct blank_rows_are_skipped as (_ & _ & _ & _ & Hparse & Htrim).
  split.
  - apply Hparse; [|done]. repeat constructor.
  - apply Htrim. repeat constructor.
Defined.

Lemma inner_languages_are_declared_witness :
  (forall key entry lang,
     In (key, entry) [(lit "a", [(lit "en", lit "1")])] ->
     In lang (dict_keys entry) -> dict_mem lang LANGUAGES = true)
  /\ (forall lang key,
        In key (dict_keys (lang_data lang [(lit "a", [(lit "en", lit "1")])])) ->
        In key (dict_keys [(lit "a", [(lit "en", lit "1")])]))
  /\ (forall lang key value,
        dict_get key (lang_data lang [(lit "a", [(lit "en", lit "1")])])
        = Some value ->
        exists entry,
          dict_get key [(lit "a", [(lit "en", lit "1")])] = Some entry
          /\ dict_get lang entry = Some value).
Proof.
  apply (inner_languages_are_declared
           [[lit "key"; lit "en"; lit "fr"]; [lit "a"; lit "1"; lit "2"]]).
  by vm_compute.
Defined.

Lemma document_holds_nonempty_values_witness :
  (In (lit "a")
     (dict_keys (lang_data (lit "zh")
                   [(lit "a", [(lit "en", [NL]); (lit "zh", [])])]))
   <-> exists entry value,
         dict_get (lit "a") [(lit "a", [(lit "en", [NL]); (lit "zh", [])])]
         = Some entry
         /\ dict_get (lit "zh") entry = Some value /\ value <> [])
  /\ (forall value,
        dict_get (lit "a")
          (lang_data (lit "zh") [(lit "a", [(lit "en", [NL]); (lit "zh", [])])])
        = Some value -> value <> []).
Proof.
  apply (document_holds_nonempty_values
           [(lit "a", [(lit "en", [NL]); (lit "zh", [])])] (lit "zh") (lit "a")).
  apply (bool_decide_unpack _). by vm_compute.
Defined.


Lemma emitted_documents_are_deterministic_witness :
  exists document,
    dict_get (lit "lib/l10n/intl_en.arb")
      (files (fst (generate_json_files [(lit "a", [(lit "en", lit "1")])]
                     (World [] [] [] []))))
    = Some document
    /\ dict_get (lit "lib/l10n/intl_en.arb")
         (files (fst (generate_json_files [(lit "a", [(lit "en", lit "1")])]
                        (World [(lit "lib/l10n/intl_en.arb", lit "stale")]
                           [] [] [lit "lib/l10n/intl_en.arb"]))))
       = Some document.
Proof.
  apply (emitted_documents_are_deterministic plain_csv_reader
           (BOM :: lit "key,en" ++ [NL] ++ lit "a,1" ++ [NL])
           [(lit "a", [(lit "en", lit "1")])]
           [(lit "a", [(lit "en", lit "1")])]
           (World [] [] [] [])
           (World [(lit "lib/l10n/intl_en.arb", lit "stale")]
              [] [] [lit "lib/l10n/intl_en.arb"])
           _ _ eq_refl eq_refl eq_refl eq_refl (lit "en")
           {| code := lit "en"; name := [33521; 35821]%N;
              file_name := lit "intl_en.arb" |}).
  right. by left.
Defined.

Lemma too_few_rows_is_malformed_witness :
  (parse_csv_data plain_csv_reader (lit "key,en" ++ [NL])
   = inl (ValueError MalformedTableError)
   <-> length [[lit "key"; lit "en"]] < 2)
  /\ (length [[lit "key"; lit "en"]] < 2 ->
      forall csv_path w,
        dict_get csv_path (files w) = Some (lit "key,en" ++ [NL]) ->
        exists w', main plain_csv_reader csv_path w = (w', 1)
                   /\ files w' = files w /\ opened w' = opened w).
Proof.
  apply (too_few_rows_is_malformed plain_csv_reader (lit "key,en" ++ [NL])
           [[lit "key"; lit "en"]]).
  by vm_compute.
Defined.

(** * Further properties of [parse_csv_data] *)

(** ** Trimming *)

Lemma drop_while_suffix {A} (p : A -> bool) l :
  exists pre, l = pre ++ drop_while p l.
Proof.
  induction l as [|x l [pre IH]]; [by exists []|]. simpl.
  destruct (p x); [|by exists []]. exists (x :: pre). simpl. by f_equal.
Qed.

Lemma drop_while_head {A} (p : A -> bool) l x l' :
  drop_while p l = x :: l' -> p x = false.
Proof.
  induction l as [|y l IH]; [done|]. simpl.
  destruct (p y) eqn:Hp; [done|]. by intros [= <- _].
Qed.

Lemma drop_while_In {A} (p : A -> bool) l x : In x (drop_while p l) -> In x l.
Proof.
  destruct (drop_while_suffix p l) as [pre Hl]. intros Hin.
  rewrite Hl. apply in_or_app. by right.
Qed.

Lemma strip_In s c : In c (strip s) -> In c s.
Proof.
  unfold strip, rstrip, lstrip. rewrite <- in_rev.
  intros Hin%drop_while_In. rewrite <- in_rev in Hin. by apply drop_while_In in Hin.
Qed.

(** A trimmed string neither starts nor ends with white space. *)
Lemma strip_ends s :
  lstrip (strip s) = strip s /\ rstrip (strip s) = strip s.
Proof.
  unfold strip, rstrip, lstrip.
  set (t := drop_while isspace s). set (u := drop_while isspace (rev t)).
  rewrite rev_involutive. split.
  - destruct (rev u) as [|x r] eqn:Hu; [done|].
    destruct (drop_while_suffix isspace (rev t)) as [pre Hpre]. fold u in Hpre.
    assert (t = rev u ++ rev pre) as Ht.
    { rewrite <- (rev_involutive t), Hpre, rev_app_distr. done. }
    rewrite Hu in Ht. simpl in Ht.
    assert (isspace x = false) as Hx by (by eapply drop_while_head, Ht).
    simpl. by rewrite Hx.
  - f_equal. destruct u as [|x u'] eqn:Hu; [done|].
    assert (isspace x = false) as Hx by (by eapply drop_while_head, Hu).
    simpl. by rewrite Hx.
Qed.

Lemma strip_idempotent s : strip (strip s) = strip s.
Proof.
  destruct (strip_ends s) as [Hl Hr]. unfold strip at 1. by rewrite Hl, Hr.
Qed.

Lemma replace2_absent a b new s : ~ In a s -> replace2 a b new s = s.
Proof.
  induction s as [|x s IH]; [done|]. intros Hnot.
  rewrite replace2_cons_ne by (intros ->; apply Hnot; by left).
  rewrite IH; [done|]. intros Hin. apply Hnot. by right.
Qed.

(** X1.  A cell that holds no backslash is stored as its trimmed text,
    character for character. *)
Theorem cell_without_backslash_is_stored_trimmed cell :
  ~ In BACKSLASH cell -> clean_value cell = strip cell.
Proof.
  intros Hnot. unfold clean_value.
  assert (~ In BACKSLASH (strip cell)) as Hstrip by (by intros ?%strip_In).
  by rewrite (replace2_absent _ 110%N), replace2_absent.
Qed.

Lemma cell_without_backslash_is_stored_trimmed_witness :
  clean_value (lit "  it's  ") = strip (lit "  it's  ").
Proof.
  apply cell_without_backslash_is_stored_trimmed.
  vm_compute. intros Hin. repeat (destruct Hin as [Hin|Hin]; [discriminate Hin|]).
  destruct Hin.
Defined.

(** ** Which tables are accepted *)

Lemma key_not_declared : dict_mem (lit "key") LANGUAGES = false.
Proof. by vm_compute. Qed.

Lemma empty_not_declared : @dict_mem LanguageConfig [] LANGUAGES = false.
Proof. by vm_compute. Qed.

Lemma language_columns_from_keys i headers lc lang :
  In lang (dict_keys (language_columns_from i headers lc))
  <-> In lang (dict_keys lc)
      \/ (dict_mem lang LANGUAGES = true
          /\ exists header, In header headers /\ lower header = lang).
Proof.
  revert i lc. induction headers as [|h rest IH]; intros i lc; simpl.
  - split; [by left|]. by intros [?|(_ & ? & [] & _)].
  - destruct (decide (lower h = lit "key")) as [Hkey|Hkey].
    + rewrite IH. split; intros [?|(Hd & h' & Hin & Hl)]; auto.
      * right. split; [done|]. exists h'. split; [by right|done].
      * destruct Hin as [->|Hin]; [|by right; split; [|exists h']].
        rewrite <- Hl, Hkey, key_not_declared in Hd. done.
    + destruct (dict_mem (lower h) LANGUAGES) eqn:Hmem; rewrite IH.
      * rewrite dict_keys_set.
        split; [intros [[->|?]|(Hd & h' & Hin & Hl)]|intros [?|(Hd & h' & Hin & Hl)]]; auto.
        -- right. split; [done|]. exists h. split; [by left|done].
        -- right. split; [done|]. exists h'. split; [by right|done].
        -- destruct Hin as [->|Hin]; [left; by left|].
           right. split; [done|]. by exists h'.
      * split; intros [?|(Hd & h' & Hin & Hl)]; auto.
        -- right. split; [done|]. exists h'. split; [by right|done].
        -- destruct Hin as [->|Hin]; [|by right; split; [|exists h']].
           rewrite <- Hl, Hmem in Hd. done.
Qed.

Lemma columns_of_keys hdr lang :
  In lang (dict_keys (columns_of hdr))
  <-> dict_mem lang LANGUAGES = true
      /\ exists cell, In cell hdr /\ lower (strip cell) = lang.
Proof.
  unfold columns_of, language_columns. rewrite language_columns_from_keys.
  split.
  - intros [[]|(Hd & h & (_ & cell & Hin & <-)%parse_headers_In & Hl)].
    split; [done|]. by exists cell.
  - intros (Hd & cell & Hin & Hl). right. split; [done|].
    exists (strip cell). split; [|done]. apply parse_headers_In.
    split; [|by exists cell]. intros Hempty.
    rewrite Hempty in Hl. simpl in Hl. subst lang.
    by rewrite empty_not_declared in Hd.
Qed.

Lemma parse_rows_shape hdr data :
  data <> [] ->
  parse_rows (hdr :: data)
  = if negb (contains (lit "key") (parse_headers hdr)) then
      inl MissingKeyColumnError
    else match columns_of hdr with
         | [] => inl NoMatchingLanguageColumnsError
         | _ :: _ =>
             inr (fold_left (process_row (key_index_of hdr) (columns_of hdr))
                    data [])
         end.
Proof. destruct data as [|row data]; [done|]. intros _. apply parse_rows_cons. Qed.

(** X2.  A table with a header and at least one more row is rejected for
    want of a language column exactly when some header cell trims to [key]
    and no header cell, trimmed and lower-cased, is a declared language
    code; it is accepted exactly when some header cell trims to [key] and
    some header cell, trimmed and lower-cased, is a declared code. *)
Theorem parse_rows_language_columns_outcome hdr row data :
  (parse_rows (hdr :: row :: data) = inl NoMatchingLanguageColumnsError
   <-> (exists cell, In cell hdr /\ strip cell = lit "key")
       /\ forall cell, In cell hdr ->
                       dict_mem (lower (strip cell)) LANGUAGES = false)
  /\ ((exists m, parse_rows (hdr :: row :: data) = inr m)
      <-> (exists cell, In cell hdr /\ strip cell = lit "key")
          /\ exists cell, In cell hdr
                          /\ dict_mem (lower (strip cell)) LANGUAGES = true).
Proof.
  rewrite parse_rows_cons.
  assert (contains (lit "key") (parse_headers hdr) = true
          <-> exists cell, In cell hdr /\ strip cell = lit "key") as Hkey.
  { rewrite contains_true, parse_headers_In. split; [by intros [_ ?]|].
    intros Hex. split; [by vm_compute|done]. }
  assert (columns_of hdr = []
          <-> forall cell, In cell hdr ->
                           dict_mem (lower (strip cell)) LANGUAGES = false) as Hnone.
  { split.
    - intros Hnil cell Hin.
      destruct (dict_mem (lower (strip cell)) LANGUAGES) eqn:Hd; [|done].
      assert (In (lower (strip cell)) (dict_keys (columns_of hdr))) as Hk.
      { apply columns_of_keys. split; [done|]. by exists cell. }
      by rewrite Hnil in Hk.
    - intros Hall. destruct (columns_of hdr) as [|[lang col] lc] eqn:Hcols; [done|].
      assert (In lang (dict_keys (columns_of hdr))) as Hk
        by (rewrite Hcols; by left).
      apply columns_of_keys in Hk as (Hd & cell & Hin & <-).
      by rewrite (Hall cell Hin) in Hd. }
  destruct (contains (lit "key") (parse_headers hdr)) eqn:Hc; simpl.
  - pose proof (proj1 Hkey eq_refl) as Hex.
    destruct (columns_of hdr) as [|b lc] eqn:Hcols.
    + pose proof (proj1 Hnone eq_refl) as Hall. split; split; try done.
      * intros [? ?]. done.
      * intros (_ & cell & Hin & Hd). by rewrite (Hall cell Hin) in Hd.
    + split; split; try done.
      * intros [_ Hall]. by apply Hnone in Hall.
      * intros _. split; [done|].
        destruct b as [lang col].
        assert (In lang (dict_keys (columns_of hdr))) as Hk
          by (rewrite Hcols; by left).
        apply columns_of_keys in Hk as (Hd & cell & Hin & <-). by exists cell.
      * intros _. by eexists.
  - split; split; try done.
    + intros [Hex _]. apply Hkey in Hex. done.
    + intros [? ?]. done.
    + intros [Hex _]. apply Hkey in Hex. done.
Qed.

(** ** The keys of the map *)

Lemma row_key_trimmed key_index row key :
  row_key key_index row = Some key -> key <> [] /\ strip key = key.
Proof.
  unfold row_key. destruct (row !! key_index) as [cell|]; [|done].
  destruct (truthy (strip cell)) eqn:Ht; [|done]. intros [= <-].
  split; [by destruct (strip cell)|apply strip_idempotent].
Qed.

Lemma see_key_old seen key : In key seen -> see_key seen key = seen.
Proof. intros Hin. unfold see_key. by rewrite (proj2 (contains_true _ _)). Qed.

Lemma see_key_new seen key : ~ In key seen -> see_key seen key = seen ++ [key].
Proof. intros Hin. unfold see_key. by rewrite (proj2 (contains_false _ _)). Qed.

Lemma dict_keys_set_order {V} key (v : V) d :
  dict_keys (dict_set key v d) = see_key (dict_keys d) key.
Proof.
  induction d as [|[k0 v0] d IH].
  - by rewrite see_key_new by (by intros []).
  - cbn [dict_set]. destruct (decide (k0 = key)) as [->|Hne].
    + by rewrite see_key_old by (by left).
    + change (dict_keys ((k0, v0) :: dict_set key v d))
        with (k0 :: dict_keys (dict_set key v d)).
      change (dict_keys ((k0, v0) :: d)) with (k0 :: dict_keys d).
      rewrite IH. destruct (contains key (dict_keys d)) eqn:Hc.
      * apply contains_true in Hc.
        rewrite !see_key_old; [done|by right|done].
      * apply contains_false in Hc.
        rewrite !see_key_new; [done| |done]. by intros [?|?].
Qed.

Lemma rows_keys_order key_index lc data result :
  dict_keys (fold_left (process_row key_index lc) data result)
  = fold_left see_key (omap (row_key key_index) data) (dict_keys result).
Proof.
  revert result. induction data as [|row data IH]; intros result; [done|].
  simpl. rewrite IH, process_row_entry.
  destruct (row_key key_index row) as [key|]; [|done].
  simpl. by rewrite dict_keys_set_order.
Qed.

Lemma see_keys_In keys key seen :
  In key (fold_left see_key keys seen) <-> In key seen \/ In key keys.
Proof.
  revert seen. induction keys as [|k keys IH]; intros seen; simpl; [tauto|].
  rewrite IH. unfold see_key. destruct (contains k seen) eqn:Hc.
  - apply contains_true in Hc. split; [tauto|]. intros [?|[<-|?]]; auto.
  - rewrite in_app_iff. simpl. tauto.
Qed.

(** X3.  The keys of the map of an accepted table are exactly the keys of
    its data rows: the trimmed key cells that are not empty.  Every key is
    non-empty and carries no surrounding white space. *)
Theorem map_keys_are_the_row_keys hdr data m :
  parse_rows (hdr :: data) = inr m ->
  forall key,
    (In key (dict_keys m)
     <-> exists row, In row data /\ row_key (key_index_of hdr) row = Some key)
    /\ (In key (dict_keys m) -> key <> [] /\ strip key = key).
Proof.
  intros Hparse key.
  destruct (parse_rows_accepted _ _ Hparse) as (h & r0 & rest & Heq & _ & _ & ->).
  injection Heq as <- ->. rewrite rows_keys_order, see_keys_In.
  assert (In key (omap (row_key (key_index_of hdr)) (r0 :: rest))
          <-> exists row, In row (r0 :: rest)
                          /\ row_key (key_index_of hdr) row = Some key) as Hrows.
  { rewrite <- list_elem_of_In, list_elem_of_omap.
    split; intros (row & Hin & Hk); exists row; by rewrite ?list_elem_of_In in *. }
  split.
  - rewrite Hrows. split; [by intros [[]|?]|by right].
  - intros [[]|(row & _ & Hk)%Hrows]. by eapply row_key_trimmed.
Qed.

Lemma map_keys_are_the_row_keys_witness :
  (In (lit "b") (dict_keys [(lit "a", [(lit "en", lit "1")]);
                            (lit "b", [(lit "en", lit "2")])])
   <-> exists row,
         In row [[lit " a "; lit "1"]; [lit "  "; lit "x"]; [lit "b"; lit "2"]]
         /\ row_key (key_index_of [lit "key"; lit "en"]) row = Some (lit "b"))
  /\ (In (lit "b") (dict_keys [(lit "a", [(lit "en", lit "1")]);
                               (lit "b", [(lit "en", lit "2")])])
      -> lit "b" <> [] /\ strip (lit "b") = lit "b").
Proof.
  apply (map_keys_are_the_row_keys [lit "key"; lit "en"]
           [[lit " a "; lit "1"]; [lit "  "; lit "x"]; [lit "b"; lit "2"]]).
  by vm_compute.
Defined.

(** X4.  The keys of the map stand in the order in which the data rows
    first bring them up: a repeated key keeps the place of its first
    row. *)
Theorem map_keys_in_first_occurrence_order hdr data m :
  parse_rows (hdr :: data) = inr m ->
  dict_keys m = first_seen (omap (row_key (key_index_of hdr)) data).
Proof.
  intros Hparse.
  destruct (parse_rows_accepted _ _ Hparse) as (h & r0 & rest & Heq & _ & _ & ->).
  injection Heq as <- ->. apply rows_keys_order.
Qed.

Lemma map_keys_in_first_occurrence_order_witness :
  dict_keys [(lit "b", [(lit "en", lit "3")]); (lit "a", [(lit "en", lit "2")])]
  = first_seen
      (omap (row_key (key_index_of [lit "key"; lit "en"]))
         [[lit "b"; lit "1"]; [lit "a"; lit "2"]; [lit "b"; lit "3"]]).
Proof.
  apply (map_keys_in_first_occurrence_order [lit "key"; lit "en"]).
  by vm_compute.
Defined.

(** ** Rows and cells that are not read *)

(** X5.  A data row that does not reach the key column, or whose key cell
    is blank, is dropped whole: with or without it the outcome is the
    same, as long as another data row remains. *)
Theorem row_without_key_is_dropped hdr pre row post :
  (length row <= key_index_of hdr
   \/ exists cell, row !! key_index_of hdr = Some cell /\ strip cell = []) ->
  pre ++ post <> [] ->
  parse_rows (hdr :: pre ++ row :: post) = parse_rows (hdr :: pre ++ post).
Proof.
  intros Hrow Hne.
  assert (row_key (key_index_of hdr) row = None) as Hkey.
  { unfold row_key. destruct Hrow as [Hlen|(cell & -> & ->)]; [|done].
    by rewrite lookup_ge_None_2. }
  rewrite !parse_rows_shape; [|done|by destruct pre].
  rewrite !fold_left_app. simpl. by rewrite process_row_entry, Hkey.
Qed.

Lemma row_without_key_is_dropped_witness :
  parse_rows ([lit "en"; lit "key"] :: [[lit "1"; lit "a"]]
              ++ [lit "orphan"] :: [[lit "2"; lit "b"]])
  = parse_rows ([lit "en"; lit "key"] :: [[lit "1"; lit "a"]]
                ++ [[lit "2"; lit "b"]]).
Proof.
  apply row_without_key_is_dropped; [|done]. left. vm_compute. lia.
Defined.

Lemma same_read_cells_entry key_index lc row row' :
  same_read_cells key_index lc row row' ->
  row_key key_index row = row_key key_index row'
  /\ row_entry lc row = row_entry lc row'.
Proof.
  intros [Hkey Hcells]. split; [unfold row_key; by rewrite Hkey|].
  unfold row_entry. generalize (@nil (list N * list N)) as entry.
  induction lc as [|[lang col] lc IH]; intros entry; [done|]. simpl.
  rewrite (Hcells lang col) by (by left).
  apply IH. intros l c Hin. apply (Hcells l c). by right.
Qed.

(** X6.  Only the key column and the bound language columns are read: two
    tables with the same header whose data rows agree, row by row, at
    those columns have the same outcome, whatever their other cells hold
    and however long their rows are. *)
Theorem unread_cells_do_not_matter hdr data data' :
  Forall2 (same_read_cells (key_index_of hdr) (columns_of hdr)) data data' ->
  parse_rows (hdr :: data) = parse_rows (hdr :: data').
Proof.
  intros Hrows. destruct Hrows as [|row row' data data' Hrow Hrows]; [done|].
  rewrite !parse_rows_cons.
  destruct (negb _); [done|]. destruct (columns_of hdr) as [|b lc] eqn:Hcols; [done|].
  f_equal. rewrite <- Hcols in *. clear Hcols.
  assert (Forall2 (same_read_cells (key_index_of hdr) (columns_of hdr))
            (row :: data) (row' :: data')) as Hall by (by constructor).
  clear Hrow Hrows. generalize (@nil (list N * dict (list N))) as result.
  induction Hall as [|r r' rest rest' Hr _ IH]; intros result; [done|].
  simpl. rewrite !process_row_entry.
  destruct (same_read_cells_entry _ _ _ _ Hr) as [<- <-]. apply IH.
Qed.

Lemma unread_cells_do_not_matter_witness :
  parse_rows [[lit "key"; lit "note"; lit "en"]; [lit "a"; lit "draft"; lit "1"]]
  = parse_rows [[lit "key"; lit "note"; lit "en"];
                [lit "a"; lit "final"; lit "1"; lit "extra"]].
Proof.
  apply unread_cells_do_not_matter. repeat constructor.
  intros lang col Hin. vm_compute in Hin.
  destruct Hin as [[= <- <-]|[]]. done.
Defined.

(** ** Where the columns are found *)

Lemma language_columns_from_get i headers lc lang col :
  dict_get lang (language_columns_from i headers lc) = Some col ->
  (dict_get lang lc = Some col
   /\ (dict_mem lang LANGUAGES = true ->
       forall j header, headers !! j = Some header -> lower header <> lang))
  \/ (dict_mem lang LANGUAGES = true
      /\ exists j header,
           col = i + j /\ headers !! j = Some header /\ lower header = lang
           /\ forall j' header', j < j' -> headers !! j' = Some header' ->
                                 lower header' <> lang).
Proof.
  revert i lc. induction headers as [|h rest IH]; intros i lc; simpl.
  { intros Hget. left. split; [done|]. intros _ j header Hj. done. }
  assert (forall lc',
            dict_get lang (language_columns_from (S i) rest lc') = Some col ->
            (dict_mem lang LANGUAGES = true -> lower h <> lang) ->
            (dict_get lang lc' = Some col
             /\ (dict_mem lang LANGUAGES = true ->
                 forall j header, (h :: rest) !! j = Some header ->
                                  lower header <> lang))
            \/ (dict_mem lang LANGUAGES = true
                /\ exists j header,
                     col = i + j /\ (h :: rest) !! j = Some header
                     /\ lower header = lang
                     /\ forall j' header', j < j' ->
                          (h :: rest) !! j' = Some header' ->
                          lower header' <> lang)) as Hskip.
  { intros lc' [[Hget Hno]|(Hd & j & header & -> & Hj & Hl & Hlast)]%IH Hh.
    - left. split; [done|]. intros Hd [|j] header Hj.
      + injection Hj as <-. by apply Hh.
      + by apply (Hno Hd j).
    - right. split; [done|]. exists (S j), header.
      split; [lia|]. split; [done|]. split; [done|].
      intros [|j'] header' Hlt Hj'; [lia|]. apply (Hlast j'); [lia|done]. }
  destruct (decide (lower h = lit "key")) as [Hkey|Hkey].
  { intros Hget. apply Hskip; [done|].
    intros Hd <-. by rewrite Hkey, key_not_declared in Hd. }
  destruct (dict_mem (lower h) LANGUAGES) eqn:Hmem.
  - intros [[Hget Hno]|(Hd & j & header & -> & Hj & Hl & Hlast)]%IH.
    + destruct (decide (lower h = lang)) as [<-|Hne].
      * rewrite dict_get_set_eq in Hget. injection Hget as <-.
        right. split; [done|]. exists 0, h.
        split; [lia|]. split; [done|]. split; [done|].
        intros [|j'] header' Hlt Hj'; [lia|]. by apply (Hno Hmem j').
      * rewrite dict_get_set_ne in Hget by done. left. split; [done|].
        intros Hd [|j] header Hj; [by injection Hj as <-|by apply (Hno Hd j)].
    + right. split; [done|]. exists (S j), header.
      split; [lia|]. split; [done|]. split; [done|].
      intros [|j'] header' Hlt Hj'; [lia|]. apply (Hlast j'); [lia|done].
  - intros Hget. apply Hskip; [done|]. intros Hd <-. by rewrite Hmem in Hd.
Qed.

Lemma parse_headers_no_blank hdr :
  (forall cell, In cell hdr -> strip cell <> []) ->
  parse_headers hdr = map strip hdr.
Proof.
  intros Hall. unfold parse_headers. f_equal.
  induction hdr as [|cell hdr IH]; [done|]. simpl.
  destruct (strip cell) eqn:Hs; [by destruct (Hall cell); [left|]|].
  simpl. f_equal. apply IH. intros c Hin. apply Hall. by right.
Qed.

(** X7.  When no header cell is blank, a language is bound to the position,
    in the header row as given, of the last header cell that is that
    language code once trimmed and lower-cased; only declared codes are
    bound.  A language column repeated in the header is read from its last
    occurrence. *)
Theorem bound_column_is_last_matching_header hdr lang col :
  (forall cell, In cell hdr -> strip cell <> []) ->
  dict_get lang (columns_of hdr) = Some col ->
  dict_mem lang LANGUAGES = true
  /\ (exists cell, hdr !! col = Some cell /\ lower (strip cell) = lang)
  /\ forall j cell, col < j -> hdr !! j = Some cell -> lower (strip cell) <> lang.
Proof.
  intros Hall Hget. unfold columns_of, language_columns in Hget.
  rewrite parse_headers_no_blank in Hget by done.
  apply language_columns_from_get in Hget
    as [[? _]|(Hd & j & header & -> & Hj & Hl & Hlast)]; [done|].
  split; [done|]. simpl. rewrite list_lookup_fmap in Hj.
  destruct (hdr !! j) as [cell|] eqn:Hcell; [|done]. injection Hj as <-.
  split; [by exists cell|]. intros j' cell' Hlt Hj'.
  apply (Hlast j' (strip cell')); [done|]. by rewrite list_lookup_fmap, Hj'.
Qed.

Lemma bound_column_is_last_matching_header_witness :
  dict_mem (lit "en") LANGUAGES = true
  /\ (exists cell,
        [lit "key"; lit "en"; lit "zh"; lit " EN "] !! 3 = Some cell
        /\ lower (strip cell) = lit "en")
  /\ forall j cell,
       3 < j -> [lit "key"; lit "en"; lit "zh"; lit " EN "] !! j = Some cell ->
       lower (strip cell) <> lit "en".
Proof.
  apply bound_column_is_last_matching_header; [|by vm_compute].
  intros cell Hin.
  repeat (destruct Hin as [<-|Hin]; [by vm_compute|]). destruct Hin.
Defined.

Lemma index_first (x : list N) xs :
  In x xs ->
  xs !! index x xs = Some x
  /\ forall j y, j < index x xs -> xs !! j = Some y -> y <> x.
Proof.
  induction xs as [|y xs IH]; [done|]. simpl. intros Hin.
  destruct (decide (y = x)) as [->|Hne]; [split; [done|intros; lia]|].
  destruct Hin as [?|Hin]; [done|]. destruct (IH Hin) as [Hat Hbefore].
  split; [done|]. intros [|j] z Hlt Hj; [by injection Hj as <-|].
  apply (Hbefore j); [lia|done].
Qed.

(** X8.  When no header cell is blank and some header cell trims to [key],
    the key is read from the position, in the header row as given, of the
    first header cell that trims to exactly [key]. *)
Theorem key_column_is_first_key_header hdr :
  (forall cell, In cell hdr -> strip cell <> []) ->
  (exists cell, In cell hdr /\ strip cell = lit "key") ->
  (exists cell, hdr !! key_index_of hdr = Some cell /\ strip cell = lit "key")
  /\ forall j cell, j < key_index_of hdr -> hdr !! j = Some cell ->
                    strip cell <> lit "key".
Proof.
  intros Hall (cell & Hin & Hkey). unfold key_index_of.
  rewrite parse_headers_no_blank by done.
  destruct (index_first (lit "key") (map strip hdr)) as [Hat Hbefore].
  { rewrite <- Hkey. by apply in_map. }
  rewrite list_lookup_fmap in Hat. split.
  - destruct (hdr !! _) as [c|]; [|done]. injection Hat as Hc. by exists c.
  - intros j c Hlt Hj. apply (Hbefore j); [done|]. by rewrite list_lookup_fmap, Hj.
Qed.

Lemma key_column_is_first_key_header_witness :
  (exists cell,
     [lit "id"; lit " key "; lit "en"; lit "key"]
       !! key_index_of [lit "id"; lit " key "; lit "en"; lit "key"] = Some cell
     /\ strip cell = lit "key")
  /\ forall j cell,
       j < key_index_of [lit "id"; lit " key "; lit "en"; lit "key"] ->
       [lit "id"; lit " key "; lit "en"; lit "key"] !! j = Some cell ->
       strip cell <> lit "key".
Proof.
  apply key_column_is_first_key_header.
  - intros cell Hin.
    repeat (destruct Hin as [<-|Hin]; [by vm_compute|]). destruct Hin.
  - exists (lit "key"). split; [|by vm_compute]. do 3 right. by left.
Defined.

(** * Further properties of [generate_json_files] and [main] *)

Lemma dict_set_fresh {V} key (v : V) d :
  ~ In key (dict_keys d) -> dict_set key v d = d ++ [(key, v)].
Proof.
  induction d as [|[k0 v0] d IH]; [done|]. simpl. intros Hnot.
  rewrite decide_False by (intros ->; apply Hnot; by left).
  rewrite IH; [done|]. intros Hin. apply Hnot. by right.
Qed.

Lemma omap_cons {A B} (f : A -> option B) x l :
  omap f (x :: l)
  = match f x with Some y => y :: omap f l | None => omap f l end.
Proof. reflexivity. Qed.

Lemma collect_document_item lang (acc : dict (list N)) key entry :
  collect lang acc (key, entry)
  = match document_item lang (key, entry) with
    | Some item => dict_set key (snd item) acc
    | None => acc
    end.
Proof.
  unfold collect, document_item. simpl.
  destruct (dict_get lang entry) as [value|]; [|done]. by destruct (truthy value).
Qed.

Lemma document_item_key lang item out :
  document_item lang item = Some out -> fst out = fst item.
Proof.
  unfold document_item. destruct (dict_get lang (snd item)) as [value|]; [|done].
  destruct (truthy value); [|done]. by intros [= <-].
Qed.

Lemma collect_items lang items (acc : dict (list N)) :
  NoDup (dict_keys acc ++ dict_keys items) ->
  fold_left (collect lang) items acc
  = acc ++ omap (document_item lang) items.
Proof.
  revert acc. induction items as [|[key entry] items IH]; intros acc Hwf.
  { simpl. by rewrite app_nil_r. }
  simpl in Hwf.
  apply NoDup_app in Hwf as (Hacc & Hdis & [Hkey Hitems]%NoDup_cons).
  assert (NoDup (dict_keys acc ++ dict_keys items)) as Hsame.
  { apply NoDup_app. split; [done|]. split; [|done].
    intros x Hx Hin. apply (Hdis x Hx). by right. }
  cbn [fold_left]. rewrite collect_document_item, omap_cons.
  destruct (document_item lang (key, entry)) as [[k value]|] eqn:Hdoc;
    [|by apply IH].
  apply document_item_key in Hdoc. simpl in Hdoc. subst k. simpl snd.
  assert (~ In key (dict_keys acc)) as Hfresh.
  { intros Hin. apply (Hdis key); [by apply list_elem_of_In|]. by left. }
  rewrite dict_set_fresh by done. rewrite IH.
  - by rewrite <- app_assoc.
  - unfold dict_keys at 1. rewrite map_app. fold (dict_keys acc).
    rewrite <- app_assoc. simpl. apply NoDup_app. split; [done|].
    split; [|by apply NoDup_cons]. done.
Qed.

(** X9.  The document of a language lists the keys that have a non-empty
    value for it in the order of the map, nothing else and nothing
    twice. *)
Theorem document_follows_map_order lang m :
  dict_wf m -> lang_data lang m = omap (document_item lang) m.
Proof. intros Hwf. unfold lang_data. by rewrite collect_items. Qed.

Lemma document_follows_map_order_witness :
  lang_data (lit "en")
    [(lit "b", [(lit "en", lit "2")]); (lit "c", [(lit "en", [])]);
     (lit "a", [(lit "en", lit "1")])]
  = omap (document_item (lit "en"))
      [(lit "b", [(lit "en", lit "2")]); (lit "c", [(lit "en", [])]);
       (lit "a", [(lit "en", lit "1")])].
Proof.
  apply document_follows_map_order. apply (bool_decide_unpack _). by vm_compute.
Defined.

Lemma lang_data_nothing lang data acc :
  (forall key entry, In (key, entry) data -> has_translation lang entry = false) ->
  fold_left (collect lang) data acc = acc.
Proof.
  revert acc. induction data as [|[key entry] data IH]; intros acc Hnone; [done|].
  simpl. pose proof (Hnone key entry (or_introl eq_refl)) as Hhas.
  unfold has_translation in Hhas.
  rewrite IH by (intros k e Hin; apply (Hnone k e); by right).
  destruct (dict_get lang entry) as [value|]; [|done]. by rewrite Hhas.
Qed.

Lemma generate_loop_frame i18n_data languages w :
  unwritable (fst (generate_loop languages i18n_data w)) = unwritable w
  /\ dirs (fst (generate_loop languages i18n_data w)) = dirs w
  /\ (forall path, ~ In path (language_paths languages) ->
        dict_get path (files (fst (generate_loop languages i18n_data w)))
        = dict_get path (files w))
  /\ exists n, opened (fst (generate_loop languages i18n_data w))
               = opened w ++ take n (language_paths languages).
Proof.
  revert w. induction languages as [|[lang cfg] languages IH]; intros w.
  { simpl. do 3 (split; [done|]). exists 0. by rewrite app_nil_r. }
  simpl. unfold write_text. fold (arb_path cfg).
  destruct (contains (arb_path cfg) (unwritable w)); simpl.
  - do 3 (split; [done|]). by exists 1.
  - match goal with |- context [generate_loop _ _ ?w1] =>
      destruct (IH w1) as (Hu & Hd & Hf & n & Ho) end.
    simpl in *. split; [done|]. split; [done|]. split.
    + intros path Hnot. rewrite Hf by tauto. apply dict_get_set_ne. tauto.
    + exists (S n). rewrite Ho, <- app_assoc. done.
Qed.

Lemma generate_loop_outcome i18n_data languages w :
  snd (generate_loop languages i18n_data w) = None
  <-> forall lang cfg, In (lang, cfg) languages ->
                       ~ In (arb_path cfg) (unwritable w).
Proof.
  revert w. induction languages as [|[lang cfg] languages IH]; intros w.
  { simpl. split; [by intros _ ? ? []|done]. }
  simpl. unfold write_text. fold (arb_path cfg).
  destruct (contains (arb_path cfg) (unwritable w)) eqn:Hc; simpl.
  - apply contains_true in Hc. split; [done|].
    intros Hall. by destruct (Hall lang cfg); [left|].
  - apply contains_false in Hc. rewrite IH. simpl.
    split; [intros Hall l c [[= <- <-]|Hin]; [done|by apply (Hall l c)]|].
    intros Hall l c Hin. apply (Hall l c). by right.
Qed.

(** X10.  When the emission completes, every declared language's path
    could be opened for writing, the five paths have been opened in
    declared order, every declared language has its document, and a
    language for which the map holds no non-empty value has the document of
    the empty mapping. *)
Theorem completed_emission_wrote_every_document i18n_data w :
  snd (generate_json_files i18n_data w) = None ->
  (forall lang cfg, In (lang, cfg) LANGUAGES ->
                    ~ In (arb_path cfg) (unwritable w))
  /\ opened (fst (generate_json_files i18n_data w))
     = opened w ++ language_paths LANGUAGES
  /\ forall lang cfg,
       In (lang, cfg) LANGUAGES ->
       dict_get (arb_path cfg) (files (fst (generate_json_files i18n_data w)))
       = Some (json_dump (lang_data lang i18n_data))
       /\ ((forall key entry, In (key, entry) i18n_data ->
                              has_translation lang entry = false) ->
           dict_get (arb_path cfg)
             (files (fst (generate_json_files i18n_data w)))
           = Some (lit "{}")).
Proof.
  unfold generate_json_files.
  intros Hnone. pose proof (proj1 (generate_loop_outcome _ _ _) Hnone) as Hok.
  clear Hnone. rewrite generate_loop_ok by done. cbn [fst files opened].
  split; [done|]. split; [done|]. intros lang cfg Hin.
  rewrite (written_get _ _ _ lang cfg language_paths_NoDup Hin).
  split; [done|]. intros Hnone. unfold lang_data. by rewrite lang_data_nothing.
Qed.

Lemma completed_emission_wrote_every_document_witness :
  (forall lang cfg, In (lang, cfg) LANGUAGES ->
                    ~ In (arb_path cfg) (unwritable (World [] [] [] [])))
  /\ opened (fst (generate_json_files [(lit "a", [(lit "en", lit "1")])]
                    (World [] [] [] [])))
     = opened (World [] [] [] []) ++ language_paths LANGUAGES
  /\ forall lang cfg,
       In (lang, cfg) LANGUAGES ->
       dict_get (arb_path cfg)
         (files (fst (generate_json_files [(lit "a", [(lit "en", lit "1")])]
                        (World [] [] [] []))))
       = Some (json_dump (lang_data lang [(lit "a", [(lit "en", lit "1")])]))
       /\ ((forall key entry,
              In (key, entry) [(lit "a", [(lit "en", lit "1")])] ->
              has_translation lang entry = false) ->
           dict_get (arb_path cfg)
             (files (fst (generate_json_files
                            [(lit "a", [(lit "en", lit "1")])]
                            (World [] [] [] []))))
           = Some (lit "{}")).
Proof.
  apply (completed_emission_wrote_every_document
           [(lit "a", [(lit "en", lit "1")])] (World [] [] [] [])).
  by vm_compute.
Defined.

(** X11.  Whatever the outcome, the emission changes no file other than the
    five documents, makes no path writable or unwritable, creates no
    directory, and opens a prefix of the declared documents in declared
    order. *)
Theorem emission_touches_only_the_documents i18n_data w :
  unwritable (fst (generate_json_files i18n_data w)) = unwritable w
  /\ dirs (fst (generate_json_files i18n_data w)) = dirs w
  /\ (forall path, ~ In path (language_paths LANGUAGES) ->
        dict_get path (files (fst (generate_json_files i18n_data w)))
        = dict_get path (files w))
  /\ exists n, opened (fst (generate_json_files i18n_data w))
               = opened w ++ take n (language_paths LANGUAGES).
Proof. apply generate_loop_frame. Qed.

Lemma makedirs_unwritable path w : unwritable (makedirs path w) = unwritable w.
Proof. unfold makedirs. by destruct (contains _ _). Qed.


(** * Properties of [validate_data] *)

Lemma dict_get_update_eq {V} key (f : V -> V) d :
  dict_get key (dict_update key f d) = f <$> dict_get key d.
Proof.
  induction d as [|[k0 v0] d IH]; [done|]. simpl.
  destruct (decide (k0 = key)) as [->|Hne]; simpl.
  - by rewrite decide_True.
  - by rewrite decide_False.
Qed.

Lemma dict_get_update_ne {V} key key' (f : V -> V) d :
  key <> key' -> dict_get key' (dict_update key f d) = dict_get key' d.
Proof.
  intros Hne. induction d as [|[k0 v0] d IH]; [done|]. simpl.
  destruct (decide (k0 = key)) as [->|Hk]; simpl.
  - by rewrite !decide_False.
  - by destruct (decide (k0 = key')).
Qed.

Lemma declared_iff lang :
  dict_mem lang LANGUAGES = true <-> In lang (dict_keys LANGUAGES).
Proof.
  rewrite dict_mem_true. split; [by intros [cfg ?%dict_get_Some_key]|].
  apply dict_key_get.
Qed.

Lemma declared_codes_NoDup : NoDup (dict_keys LANGUAGES).
Proof. apply (bool_decide_unpack _). by vm_compute. Qed.

Section Validate.
Variable entry : dict (list N).

Let count_step (counts : dict nat) (lang_code : list N) : dict nat :=
  if has_translation lang_code entry then dict_update lang_code S counts
  else counts.

Let missing_step (key : list N) (missing : list (list N * list N))
    (lang_code : list N) : list (list N * list N) :=
  if has_translation lang_code entry then missing
  else missing ++ [(key, lang_code)].

Lemma count_langs_get langs counts lang :
  NoDup langs ->
  dict_get lang (fold_left count_step langs counts)
  = if contains lang langs && has_translation lang entry
    then S <$> dict_get lang counts else dict_get lang counts.
Proof.
  revert counts. induction langs as [|l langs IH]; intros counts Hnd; [done|].
  apply NoDup_cons in Hnd as [Hnotin Hnd]. simpl fold_left. rewrite IH by done.
  rewrite list_elem_of_In in Hnotin. unfold count_step.
  destruct (decide (l = lang)) as [->|Hne].
  - rewrite (proj2 (contains_false lang langs)) by done.
    rewrite (proj2 (contains_true lang (lang :: langs))) by (by left).
    simpl. destruct (has_translation lang entry); [|done].
    apply dict_get_update_eq.
  - assert (contains lang (l :: langs) = contains lang langs) as ->.
    { destruct (contains lang langs) eqn:Hc.
      - apply contains_true. right. by apply contains_true.
      - apply contains_false. apply contains_false in Hc. by intros [?|?]. }
    destruct (has_translation l entry); [|done].
    by rewrite dict_get_update_ne.
Qed.

Lemma missing_langs key langs missing :
  fold_left (missing_step key) langs missing
  = missing ++ map (pair key)
                 (List.filter (fun lang_code =>
                                 negb (has_translation lang_code entry)) langs).
Proof.
  revert missing. induction langs as [|l langs IH]; intros missing.
  { simpl. by rewrite app_nil_r. }
  simpl. rewrite IH. unfold missing_step.
  destruct (has_translation l entry); simpl; [done|]. by rewrite <- app_assoc.
Qed.

Lemma count_langs_keys langs counts :
  dict_keys (fold_left count_step langs counts) = dict_keys counts.
Proof.
  revert counts. induction langs as [|l langs IH]; intros counts; [done|].
  simpl. rewrite IH. unfold count_step. destruct (has_translation l entry); [|done].
  clear. induction counts as [|[k0 v0] counts IH]; [done|]. simpl.
  destruct (decide (k0 = l)); simpl; [done|]. by rewrite IH.
Qed.

Lemma sum_update_present lang (counts : dict nat) :
  In lang (dict_keys counts) ->
  sum_list (map snd (dict_update lang S counts)) = S (sum_list (map snd counts)).
Proof.
  induction counts as [|[k0 v0] counts IH]; [done|]. simpl.
  destruct (decide (k0 = lang)) as [->|Hne]; simpl; [done|].
  intros [?|Hin]; [done|]. rewrite IH by done. lia.
Qed.

Lemma count_langs_sum langs counts :
  (forall lang, In lang langs -> In lang (dict_keys counts)) ->
  sum_list (map snd (fold_left count_step langs counts))
  = sum_list (map snd counts)
    + length (List.filter (fun lang_code => has_translation lang_code entry) langs).
Proof.
  revert counts. induction langs as [|l langs IH]; intros counts Hin.
  { simpl. lia. }
  simpl. rewrite IH.
  - unfold count_step. destruct (has_translation l entry); simpl; [|lia].
    rewrite sum_update_present by (apply Hin; by left). lia.
  - intros lang Hl. pose proof (count_langs_keys [l] counts) as Hk.
    simpl in Hk. rewrite Hk. apply Hin. by right.
Qed.
End Validate.

Lemma count_items_get lang data counts :
  In lang (dict_keys LANGUAGES) ->
  dict_get lang (fold_left count_item data counts)
  = (fun n => n + length (List.filter
                            (fun item => has_translation lang (snd item)) data))
    <$> dict_get lang counts.
Proof.
  intros Hlang. revert counts.
  induction data as [|item data IH]; intros counts.
  { simpl. destruct (dict_get lang counts); simpl; [f_equal; lia|done]. }
  simpl fold_left. rewrite IH. unfold count_item.
  rewrite count_langs_get by apply declared_codes_NoDup.
  rewrite (proj2 (contains_true _ _)) by done. simpl.
  destruct (has_translation lang (snd item)); simpl;
    destruct (dict_get lang counts); simpl; try done; f_equal; lia.
Qed.

Lemma document_item_has lang item :
  has_translation lang (snd item)
  = match document_item lang item with Some _ => true | None => false end.
Proof.
  unfold document_item, has_translation.
  destruct (dict_get lang (snd item)) as [value|]; [|done]. by destruct (truthy value).
Qed.

Lemma document_items_length lang data :
  length (omap (document_item lang) data)
  = length (List.filter (fun item => has_translation lang (snd item)) data).
Proof.
  induction data as [|item data IH]; [done|].
  rewrite omap_cons. cbn [List.filter]. rewrite document_item_has.
  destruct (document_item lang item); simpl; by rewrite IH.
Qed.

Lemma lang_data_items lang m :
  dict_wf m -> lang_data lang m = omap (document_item lang) m.
Proof. intros Hwf. unfold lang_data. by rewrite collect_items. Qed.

(** X13.  The count [validate_data] reports for a declared language is the
    number of key-value pairs [generate_json_files] writes to that
    language's document. *)
Theorem reported_count_is_document_size i18n_data lang :
  dict_wf i18n_data ->
  dict_mem lang LANGUAGES = true ->
  dict_get lang (counts (validate_data i18n_data))
  = Some (length (lang_data lang i18n_data)).
Proof.
  intros Hwf Hlang%declared_iff. simpl. unfold language_counts.
  rewrite count_items_get by done.
  rewrite lang_data_items, document_items_length by done.
  assert (dict_get lang (map (fun lang_code => (lang_code, 0))
                           (dict_keys LANGUAGES)) = Some 0) as ->; [|done].
  revert Hlang. generalize (dict_keys LANGUAGES) as langs.
  induction langs as [|l langs IH]; [done|]. simpl.
  destruct (decide (l = lang)); [done|]. intros [?|?]; [done|]. by apply IH.
Qed.

Lemma reported_count_is_document_size_witness :
  dict_get (lit "en")
    (counts (validate_data [(lit "a", [(lit "en", lit "1"); (lit "zh", [])]);
                            (lit "b", [(lit "en", lit "2")])]))
  = Some (length (lang_data (lit "en")
                    [(lit "a", [(lit "en", lit "1"); (lit "zh", [])]);
                     (lit "b", [(lit "en", lit "2")])])).
Proof.
  apply reported_count_is_document_size; [|by vm_compute].
  apply (bool_decide_unpack _). by vm_compute.
Defined.

Lemma filter_split_length {A} (p : A -> bool) l :
  length (List.filter p l) + length (List.filter (fun x => negb (p x)) l)
  = length l.
Proof.
  induction l as [|x l IH]; [done|]. simpl. destruct (p x); simpl; lia.
Qed.

Lemma count_items_keys data counts :
  dict_keys (fold_left count_item data counts) = dict_keys counts.
Proof.
  revert counts. induction data as [|item data IH]; intros counts; [done|].
  simpl. rewrite IH. apply count_langs_keys.
Qed.

Lemma missing_items data missing :
  fold_left missing_item data missing
  = missing ++ flat_map (missing_of (dict_keys LANGUAGES)) data.
Proof.
  revert missing. induction data as [|item data IH]; intros missing.
  { simpl. by rewrite app_nil_r. }
  simpl. rewrite IH. unfold missing_item. rewrite missing_langs.
  by rewrite <- app_assoc.
Qed.

(** X14.  Every pair of a key of the map and a declared language is either
    counted for its language or listed as missing: the counts and the
    number of missing pairs add up to the number of keys times the number
    of declared languages. *)
Theorem counts_and_missing_add_up i18n_data :
  sum_list (map snd (counts (validate_data i18n_data)))
  + length (missing (validate_data i18n_data))
  = total_keys (validate_data i18n_data) * length LANGUAGES.
Proof.
  simpl total_keys. simpl counts. simpl missing.
  unfold language_counts, missing_translations.
  assert (forall data counts missing,
            dict_keys counts = dict_keys LANGUAGES ->
            sum_list (map snd (fold_left count_item data counts))
            + length (fold_left missing_item data missing)
            = sum_list (map snd counts) + length missing
              + length data * length (dict_keys LANGUAGES)) as Hall.
  { induction data as [|item data IH]; intros counts missing Hkeys.
    { simpl. lia. }
    simpl fold_left.
    rewrite IH by (unfold count_item; by rewrite count_langs_keys).
    unfold count_item, missing_item.
    rewrite count_langs_sum by (intros lang; by rewrite Hkeys).
    rewrite missing_langs, length_app, length_map.
    pose proof (filter_split_length
                  (fun lang_code => has_translation lang_code (snd item))
                  (dict_keys LANGUAGES)) as Hsplit.
    simpl length in *. lia. }
  rewrite Hall.
  - unfold dict_keys at 2. rewrite length_map.
    assert (sum_list (map snd (map (fun lang_code : list N => (lang_code, 0))
                                 (dict_keys LANGUAGES))) = 0) as ->
      by (by vm_compute).
    simpl. lia.
  - unfold dict_keys. rewrite map_map. simpl. done.
Qed.

(** X15.  The missing pairs are listed key by key in the order of the map,
    and for each key in the order in which the languages are declared. *)
Theorem missing_pairs_in_key_then_language_order i18n_data :
  missing (validate_data i18n_data)
  = flat_map (missing_of (dict_keys LANGUAGES)) i18n_data.
Proof. simpl. unfold missing_translations. by rewrite missing_items. Qed.

(** X16.  For a declared language, a pair is reported missing exactly when
    its key is a key of the map that the language's document does not
    hold: the report and the documents never disagree. *)
Theorem missing_iff_not_in_document i18n_data key lang :
  dict_wf i18n_data ->
  dict_mem lang LANGUAGES = true ->
  In (key, lang) (missing (validate_data i18n_data))
  <-> In key (dict_keys i18n_data)
      /\ ~ In key (dict_keys (lang_data lang i18n_data)).
Proof.
  intros Hwf Hlang%declared_iff. simpl. unfold missing_translations.
  rewrite missing_items. simpl. rewrite in_flat_map.
  assert (forall entry,
            dict_get key i18n_data = Some entry ->
            In key (dict_keys (lang_data lang i18n_data))
            <-> has_translation lang entry = true) as Hdoc.
  { intros entry Hentry. unfold has_translation. split.
    - intros [value Hvalue]%dict_key_get.
      rewrite lang_data_get, Hentry in Hvalue by done.
      destruct (dict_get lang entry) as [v|]; [|done]. by destruct (truthy v).
    - intros Hhas.
      destruct (dict_get lang entry) as [v|] eqn:Hv; [|done].
      apply (dict_get_Some_key _ _ v). by rewrite lang_data_get, Hentry, Hv, Hhas. }
  split.
  - intros ([k entry] & Hin & Hpair). unfold missing_of in Hpair.
    apply in_map_iff in Hpair as (l & Heq & [_ Hno]%filter_In).
    simpl in Heq, Hno. injection Heq as -> ->. pose proof (dict_get_In_wf _ _ _ Hwf Hin) as Hentry.
    split; [by eapply dict_get_Some_key|].
    rewrite (Hdoc entry Hentry). by destruct (has_translation lang entry).
  - intros [[entry Hentry]%dict_key_get Hnot].
    exists (key, entry). split; [by apply dict_get_Some_In|].
    unfold missing_of. cbn [fst snd]. apply in_map, filter_In. split; [done|].
    rewrite (Hdoc entry Hentry) in Hnot.
    by destruct (has_translation lang entry).
Qed.

Lemma missing_iff_not_in_document_witness :
  In (lit "a", lit "zh")
    (missing (validate_data [(lit "a", [(lit "en", lit "1"); (lit "zh", [])])]))
  <-> In (lit "a") (dict_keys [(lit "a", [(lit "en", lit "1"); (lit "zh", [])])])
      /\ ~ In (lit "a")
           (dict_keys (lang_data (lit "zh")
                         [(lit "a", [(lit "en", lit "1"); (lit "zh", [])])])).
Proof.
  apply missing_iff_not_in_document; [|by vm_compute].
  apply (bool_decide_unpack _). by vm_compute.
Defined.

(** * Properties of [write_csv] and of the exporter's [main] *)

Lemma drop_while_split {A} (p : A -> bool) l :
  exists pre, l = pre ++ drop_while p l /\ Forall (fun x => p x = true) pre.
Proof.
  induction l as [|x l (pre & IH & Hpre)]; [by exists []|]. simpl.
  destruct (p x) eqn:Hp; [|by exists []].
  exists (x :: pre). split; [simpl; by f_equal|by constructor].
Qed.

Lemma trimmed_rows_split rows :
  exists blank,
    rows = trimmed_rows rows ++ blank
    /\ Forall (fun row => is_empty_row row = true) blank.
Proof.
  unfold trimmed_rows.
  destruct (drop_while_split is_empty_row (rev rows)) as (pre & Hrev & Hpre).
  exists (rev pre). split; [|by apply Forall_rev].
  rewrite <- rev_app_distr, <- Hrev. by rewrite rev_involutive.
Qed.

(** X17.  [write_csv] hands the rows to the CSV writer without their blank
    tail and with nothing else removed: the rows are the written rows
    followed by blank rows only, and the last written row is not blank. *)
Theorem write_csv_drops_exactly_the_blank_tail rows :
  exists blank,
    rows = trimmed_rows rows ++ blank
    /\ Forall (fun row => is_empty_row row = true) blank
    /\ forall row, last (trimmed_rows rows) = Some row ->
                   is_empty_row row = false.
Proof.
  destruct (trimmed_rows_split rows) as (blank & Hrows & Hblank).
  exists blank. split; [done|]. split; [done|].
  unfold trimmed_rows. intros row.
  destruct (drop_while is_empty_row (rev rows)) as [|x kept] eqn:Hdrop; [done|].
  simpl. rewrite last_snoc. intros [= <-]. by eapply drop_while_head.
Qed.

(** X18.  When the rows [write_csv] keeps still hold a header and a data
    row, [parse_csv_data] has the same outcome on the kept rows as on the
    rows as fetched. *)
Theorem parse_after_trim rows :
  2 <= length (trimmed_rows rows) ->
  parse_rows (trimmed_rows rows) = parse_rows rows.
Proof.
  intros Hlen. destruct (trimmed_rows_split rows) as (blank & Hrows & Hblank).
  rewrite Hrows at 2.
  destruct (trimmed_rows rows) as [|hdr [|row data]]; [simpl in Hlen; lia..|].
  simpl app. rewrite !parse_rows_cons.
  destruct (negb _); [done|]. destruct (columns_of hdr) as [|b lc] eqn:Hcols; [done|].
  f_equal. rewrite <- Hcols.
  change (row :: data ++ blank) with ((row :: data) ++ blank).
  by rewrite fold_left_app, (rows_skip_empty _ _ blank).
Qed.

Lemma parse_after_trim_witness :
  parse_rows (trimmed_rows [[lit "key"; lit "en"]; [lit "a"; lit "1"];
                            [[]; lit " "]; []])
  = parse_rows [[lit "key"; lit "en"]; [lit "a"; lit "1"]; [[]; lit " "]; []].
Proof. apply parse_after_trim. vm_compute. lia. Defined.

Lemma write_rows_prefix (format_row : list (list N) -> list N) rows written :
  exists n,
    fst (write_rows format_row rows written)
    = written ++ concat (map format_row (take n rows)).
Proof.
  revert written. induction rows as [|r rows IH]; intros written.
  { exists 0. simpl. by rewrite app_nil_r. }
  simpl. destruct (encodable (format_row r)).
  - destruct (IH (written ++ format_row r)) as [n Hn].
    exists (S n). rewrite Hn. simpl. by rewrite <- app_assoc.
  - exists 0. simpl. by rewrite app_nil_r.
Qed.

Lemma write_rows_done (format_row : list (list N) -> list N) rows written :
  snd (write_rows format_row rows written) = None ->
  Forall (fun r => encodable (format_row r) = true) rows
  /\ fst (write_rows format_row rows written)
     = written ++ concat (map format_row rows).
Proof.
  revert written. induction rows as [|r rows IH]; intros written.
  { intros _. split; [constructor|]. simpl. by rewrite app_nil_r. }
  simpl. destruct (encodable (format_row r)) eqn:Hr; [|done].
  intros [Hall Htext]%IH. split; [by constructor|].
  rewrite Htext. by rewrite <- app_assoc.
Qed.


(** * A declared language without a column *)

(** X20.  When no header cell of an accepted table is a given language
    code once trimmed and lower-cased, no entry of the map holds a value
    for that language, and the language's document is the empty mapping,
    written as [{}]. *)
Theorem language_without_column_gets_empty_document hdr data m lang :
  parse_rows (hdr :: data) = inr m ->
  (forall cell, In cell hdr -> lower (strip cell) <> lang) ->
  (forall key entry, In (key, entry) m -> dict_get lang entry = None)
  /\ lang_data lang m = []
  /\ json_dump (lang_data lang m) = lit "{}".
Proof.
  intros Hparse Hnone. pose proof (parse_rows_wf _ _ Hparse) as Hwf.
  assert (forall key entry, In (key, entry) m -> dict_get lang entry = None)
    as Hentries.
  { intros key entry Hin. apply (dict_get_In_wf _ _ _ Hwf) in Hin.
    destruct (parse_rows_accepted _ _ Hparse) as (h & r0 & rest & Heq & _ & _ & ->).
    injection Heq as <- ->.
    apply rows_get_origin in Hin as [?|(row & _ & _ & ->)]; [done|].
    rewrite row_entry_get by apply language_columns_wf.
    destruct (dict_get lang (columns_of hdr)) as [col|] eqn:Hcol; [|done].
    apply dict_get_Some_key, columns_of_keys in Hcol as (_ & cell & Hin & Hl).
    by destruct (Hnone cell Hin). }
  split; [done|].
  assert (lang_data lang m = []) as ->; [|done].
  unfold lang_data. apply lang_data_nothing. intros key entry Hin.
  unfold has_translation. by rewrite (Hentries key entry Hin).
Qed.

Lemma language_without_column_gets_empty_document_witness :
  (forall key entry,
     In (key, entry) [(lit "a", [(lit "en", lit "1")])] ->
     dict_get (lit "ja") entry = None)
  /\ lang_data (lit "ja") [(lit "a", [(lit "en", lit "1")])] = []
  /\ json_dump (lang_data (lit "ja") [(lit "a", [(lit "en", lit "1")])])
     = lit "{}".
Proof.
  apply (language_without_column_gets_empty_document
           [lit "key"; lit "en"] [[lit "a"; lit "1"]]); [by vm_compute|].
  intros cell Hin.
  repeat (destruct Hin as [<-|Hin]; [by vm_compute|]). destruct Hin.
Defined.

(** * Values and the columns they come from *)

(** C10 (defect in the code).  The inner mappings hold declared language
    codes only, but data of an unmatched column does enter the map: the
    header list is filtered before it is enumerated (the defect of C2), so
    with the header [key, (empty), note, en] the language [en] is bound to
    column 2, whose header [note] is no language code, and the row
    [a, (empty), draft, hello] stores [draft] as the [en] value. *)
Theorem value_of_unmatched_column_is_stored :
  parse_headers [lit "key"; []; lit "note"; lit "en"]
  = [lit "key"; lit "note"; lit "en"]
  /\ columns_of [lit "key"; []; lit "note"; lit "en"] = [(lit "en", 2)]
  /\ [lit "key"; []; lit "note"; lit "en"] !! 2 = Some (lit "note")
  /\ dict_mem (lower (strip (lit "note"))) LANGUAGES = false
  /\ parse_rows [[lit "key"; []; lit "note"; lit "en"];
                 [lit "a"; []; lit "draft"; lit "hello"]]
     = inr [(lit "a", [(lit "en", lit "draft")])]
  /\ lang_data (lit "en") [(lit "a", [(lit "en", lit "draft")])]
     = [(lit "a", lit "draft")].
Proof. repeat split; by vm_compute. Qed.

Lemma columns_of_no_blank_get hdr lang col :
  (forall cell, In cell hdr -> strip cell <> []) ->
  dict_get lang (columns_of hdr) = Some col ->
  dict_mem lang LANGUAGES = true
  /\ exists header_cell, hdr !! col = Some header_cell
                         /\ lower (strip header_cell) = lang.
Proof.
  intros Hall Hget. unfold columns_of, language_columns in Hget.
  rewrite parse_headers_no_blank in Hget by done.
  apply language_columns_from_get in Hget
    as [[? _]|(Hd & j & header & -> & Hj & Hl & _)]; [done|].
  split; [done|]. simpl. rewrite list_lookup_fmap in Hj.
  destruct (hdr !! j) as [cell|] eqn:Hcell; [|done]. injection Hj as <-.
  by exists cell.
Qed.

(** X22.  When no header cell is blank, every value of the map of an
    accepted table is the cleaned cell of a data row with that key, taken
    from a column whose header cell, trimmed and lower-cased, is the
    value's language code, a declared one: data of a column that matches no
    language never enters the map. *)
Theorem stored_values_come_from_matching_columns
    hdr data m key entry lang value :
  (forall cell, In cell hdr -> strip cell <> []) ->
  parse_rows (hdr :: data) = inr m ->
  dict_get key m = Some entry ->
  dict_get lang entry = Some value ->
  exists row col header_cell cell,
    In row data /\ row_key (key_index_of hdr) row = Some key
    /\ hdr !! col = Some header_cell /\ lower (strip header_cell) = lang
    /\ dict_mem lang LANGUAGES = true
    /\ row !! col = Some cell /\ value = clean_value cell.
Proof.
  intros Hall Hparse Hentry Hvalue.
  destruct (parse_rows_accepted _ _ Hparse) as (h & r0 & rest & Heq & _ & _ & ->).
  injection Heq as <- ->.
  apply rows_get_origin in Hentry as [?|(row & Hin & Hkey & ->)]; [done|].
  rewrite row_entry_get in Hvalue by apply language_columns_wf.
  destruct (dict_get lang (columns_of hdr)) as [col|] eqn:Hcol; [|done].
  destruct (row !! col) as [cell|] eqn:Hcell; [|done].
  injection Hvalue as <-.
  destruct (columns_of_no_blank_get hdr lang col Hall Hcol)
    as (Hd & header_cell & Hheader & Hl).
  by exists row, col, header_cell, cell.
Qed.

Lemma stored_values_come_from_matching_columns_witness :
  exists row col header_cell cell,
    In row [[lit "a"; lit "draft"; lit " hello "]]
    /\ row_key (key_index_of [lit "key"; lit "note"; lit "EN"]) row
       = Some (lit "a")
    /\ [lit "key"; lit "note"; lit "EN"] !! col = Some header_cell
    /\ lower (strip header_cell) = lit "en"
    /\ dict_mem (lit "en") LANGUAGES = true
    /\ row !! col = Some cell /\ lit "hello" = clean_value cell.
Proof.
  apply (stored_values_come_from_matching_columns
           [lit "key"; lit "note"; lit "EN"]
           [[lit "a"; lit "draft"; lit " hello "]]
           [(lit "a", [(lit "en", lit "hello")])] (lit "a")
           [(lit "en", lit "hello")] (lit "en") (lit "hello")).
  - intros cell Hin.
    repeat (destruct Hin as [<-|Hin]; [by vm_compute|]). destruct Hin.
  - by vm_compute.
  - by vm_compute.
  - by vm_compute.
Defined.
